(** * CineSense bulk dataset import: a shallow embedding

    The development follows the two source files of the import pipeline:
    - [movies/services/tmdb_parser.py]: the hierarchical parser [TMDBParser]
      and the tabular parser [KaggleTMDBParser], with their normalisers;
    - [movies/management/commands/import_movies.py]: the supervisor
      [bulk_import_tmdb] and the committer [_bulk_create_batch].

    Python values are dynamically typed, so the embedding starts with a small
    model of the values and built-ins the two files use ([Module Py]).
    A Python [str] is a [string] whose characters are read as the code points
    0..255; text outside Latin-1 is outside the model.  A Python [int] is a
    [Z]; a Python [float] is an IEEE binary64 number ([spec_float] with
    precision 53 and maximal exponent 1024).  A computation that may raise is
    a value of [res]. *)

From Stdlib Require Import ZArith String Ascii List Bool Lia DecimalString.
From Stdlib Require Import Floats.SpecFloat.
From stdpp Require Import base gmap strings list.

Set Warnings "-register-all,-clear-no-such-hyp".
Local Open Scope string_scope.
Local Open Scope Z_scope.
Import ListNotations.

(* ===================================================================== *)
(** * Python values and built-ins *)
(* ===================================================================== *)

Module Py.

(** Exception classes that occur in the modelled code.  [JSONDecodeError] is
    a subclass of [ValueError]; every other class here is unrelated to the
    others. *)
Inductive exn :=
| JSONDecodeError | ValueError | TypeError | SyntaxError | OverflowError
| KeyError | AttributeError | RecursionError | KeyboardInterrupt.

Definition exn_eqb (a b : exn) : bool :=
  match a, b with
  | JSONDecodeError, JSONDecodeError | ValueError, ValueError
  | TypeError, TypeError | SyntaxError, SyntaxError
  | OverflowError, OverflowError | KeyError, KeyError
  | AttributeError, AttributeError | RecursionError, RecursionError
  | KeyboardInterrupt, KeyboardInterrupt => true
  | _, _ => false
  end.

(** [is_instance e c]: an exception of class [e] is caught by [except c]. *)
Definition is_instance (e c : exn) : bool :=
  exn_eqb e c ||
  match e, c with JSONDecodeError, ValueError => true | _, _ => false end.

(** [caught e cs]: [except (c1, c2, ...)] catches [e]. *)
Definition caught (e : exn) (cs : list exn) : bool :=
  existsb (is_instance e) cs.

Inductive res (A : Type) :=
| Ok (a : A)
| Raise (e : exn).
Arguments Ok {A} a.
Arguments Raise {A} e.

Definition bind {A B} (m : res A) (k : A → res B) : res B :=
  match m with Ok a => k a | Raise e => Raise e end.

#[export] Instance res_ret : MRet res := @Ok.
#[export] Instance res_bind : MBind res := λ A B k m, bind m k.

(** [try_except m cs h] is [try: m  except cs: h]. *)
Definition try_except {A} (m : res A) (cs : list exn) (h : res A) : res A :=
  match m with
  | Ok a => Ok a
  | Raise e => if caught e cs then h else Raise e
  end.

Definition float := spec_float.
Definition prec : Z := 53.
Definition emax : Z := 1024.

Inductive scalar :=
| SNone
| SBool (b : bool)
| SInt (z : Z)
| SFloat (f : float)
| SStr (s : string).

Inductive pyval :=
| VS (a : scalar)
| VList (l : list pyval)
| VTuple (l : list pyval)
| VSet (l : list pyval)
| VDict (d : list (pyval * pyval)).

Definition VNone := VS SNone.
Definition VStr (s : string) := VS (SStr s).
Definition VInt (z : Z) := VS (SInt z).
Definition VFloat (f : float) := VS (SFloat f).
Definition VBool (b : bool) := VS (SBool b).

(* --------------------------------------------------------------------- *)
(** ** Strings *)

Definition code (c : ascii) : Z := Z.of_N (N_of_ascii c).
Definition chr (z : Z) : ascii := ascii_of_N (Z.to_N z).

(** The double quote and the single quote. *)
Definition dquote : ascii := chr 34.
Definition squote : ascii := chr 39.

Definition len (s : string) : Z := Z.of_nat (String.length s).

(** [s[:n]] for [n >= 0]. *)
Fixpoint take (n : nat) (s : string) : string :=
  match n, s with
  | S n', String c s' => String c (take n' s')
  | _, _ => EmptyString
  end.

Definition slice_to (n : Z) (s : string) : string := take (Z.to_nat n) s.

(** [str.isspace] on one character of Latin-1. *)
Definition is_space (c : ascii) : bool :=
  let n := code c in
  ((9 <=? n) && (n <=? 13)) || ((28 <=? n) && (n <=? 32))
  || (n =? 133) || (n =? 160).

Fixpoint lstrip (s : string) : string :=
  match s with
  | String c s' => if is_space c then lstrip s' else s
  | EmptyString => EmptyString
  end.

Fixpoint rstrip (s : string) : string :=
  match s with
  | String c s' =>
      match rstrip s' with
      | EmptyString => if is_space c then EmptyString else String c EmptyString
      | r => String c r
      end
  | EmptyString => EmptyString
  end.

Definition strip (s : string) : string := lstrip (rstrip s).

(** [str.lower] on Latin-1: A-Z and the accented capitals except the
    multiplication sign. *)
Definition lower_char (c : ascii) : ascii :=
  let n := code c in
  if ((65 <=? n) && (n <=? 90))
     || ((192 <=? n) && (n <=? 222) && negb (n =? 215))
  then chr (n + 32) else c.

Fixpoint lower (s : string) : string :=
  match s with
  | String c s' => String (lower_char c) (lower s')
  | EmptyString => EmptyString
  end.

Fixpoint startswith (s p : string) : bool :=
  match p, s with
  | EmptyString, _ => true
  | String a p', String b s' => Ascii.eqb a b && startswith s' p'
  | String _ _, EmptyString => false
  end.

Fixpoint last_char (s : string) : option ascii :=
  match s with
  | EmptyString => None
  | String c EmptyString => Some c
  | String _ s' => last_char s'
  end.

Definition endswith_char (s : string) (c : ascii) : bool :=
  match last_char s with Some d => Ascii.eqb c d | None => false end.

(** [s[:-1]] *)
Fixpoint drop_last (s : string) : string :=
  match s with
  | EmptyString => EmptyString
  | String _ EmptyString => EmptyString
  | String c s' => String c (drop_last s')
  end.

(** [s.replace(a, b)] for one-character [a] and [b]. *)
Fixpoint replace_char (a b : ascii) (s : string) : string :=
  match s with
  | String c s' => String (if Ascii.eqb c a then b else c) (replace_char a b s')
  | EmptyString => EmptyString
  end.

(** [sep.join(l)] for a list of [str]. *)
Fixpoint join (sep : string) (l : list string) : string :=
  match l with
  | [] => EmptyString
  | [x] => x
  | x :: l' => x ++ sep ++ join sep l'
  end.

(** [x in (s1, s2, ...)] for a [str] *)
Definition str_in (s : string) (l : list string) : bool :=
  existsb (String.eqb s) l.

(* --------------------------------------------------------------------- *)
(** ** Numbers *)

Definition digit_val (c : ascii) : option Z :=
  let n := code c in
  if (48 <=? n) && (n <=? 57) then Some (n - 48) else None.

(** The tail of a [digitpart]: digits, each optionally preceded by one
    underscore.  Returns the accumulated value, the number of digits read
    and the unread rest. *)
Fixpoint digitpart_rest (acc cnt : Z) (s : string) : Z * Z * string :=
  match s with
  | String c s' =>
      match digit_val c with
      | Some d => digitpart_rest (10 * acc + d) (cnt + 1) s'
      | None =>
          if Ascii.eqb c "_" then
            match s' with
            | String c2 s'' =>
                match digit_val c2 with
                | Some d => digitpart_rest (10 * acc + d) (cnt + 1) s''
                | None => (acc, cnt, s)
                end
            | EmptyString => (acc, cnt, s)
            end
          else (acc, cnt, s)
      end
  | EmptyString => (acc, cnt, s)
  end.

Definition digitpart (acc cnt : Z) (s : string) : option (Z * Z * string) :=
  match s with
  | String c s' =>
      match digit_val c with
      | Some d => Some (digitpart_rest (10 * acc + d) (cnt + 1) s')
      | None => None
      end
  | EmptyString => None
  end.

(** An optional sign: [true] for a minus. *)
Definition sign_of (s : string) : bool * string :=
  match s with
  | String c s' =>
      if Ascii.eqb c "-" then (true, s')
      else if Ascii.eqb c "+" then (false, s')
      else (false, s)
  | EmptyString => (false, s)
  end.

(** CPython (3.11) refuses to convert between an [int] and decimal text
    of more than [sys.get_int_max_str_digits()] digits, 4300 unless the
    interpreter is configured otherwise. *)
Definition int_max_str_digits : Z := 4300.

(** The least magnitude whose decimal text has more than
    [int_max_str_digits] digits: 10^4300. *)
Definition str_limit : Z := Eval vm_compute in 10 ^ 4300.

Definition too_long (z : Z) : bool := str_limit <=? Z.abs z.

(** [int(s)] for a [str], base 10: surrounding whitespace, a sign, digits
    with single underscores between them; more than [int_max_str_digits]
    digits (leading zeros count, underscores do not) are refused. *)
Definition int_of_str (s : string) : res Z :=
  let '(neg, r) := sign_of (strip s) in
  match digitpart 0 0 r with
  | Some (n, cnt, EmptyString) =>
      if int_max_str_digits <? cnt then Raise ValueError
      else Ok (if neg then - n else n)
  | _ => Raise ValueError
  end.

(** The binary64 number nearest to [m * 2^e] ([m >= 0]), ties to even. *)
Definition round_scaled (neg : bool) (m e : Z) : float :=
  match m with
  | Zpos p => binary_round prec emax neg p e
  | _ => S754_zero neg
  end.

(** The binary64 number nearest to [p / q] for positive [p] and [q]: a
    quotient of at least 64 bits with a sticky last bit, then rounded. *)
Definition round_ratio (neg : bool) (p q : Z) : float :=
  let s := Z.max 0 (Z.log2 q - Z.log2 p + 64) in
  let n := Z.shiftl p s in
  round_scaled neg (2 * (n / q) + (if n mod q =? 0 then 0 else 1)) (- s - 1).

(** The binary64 number nearest to [n * 10^k] ([n >= 0]). *)
Definition round_decimal (neg : bool) (n k : Z) : float :=
  if n =? 0 then S754_zero neg
  else if 0 <=? k then round_scaled neg (n * 10 ^ k) 0
  else round_ratio neg n (10 ^ (- k)).

(** The exponent part [e[sign]digits] of a float literal, if any. *)
Definition exponent_of (s : string) : option (Z * string) :=
  match s with
  | String c s' =>
      if Ascii.eqb c "e" || Ascii.eqb c "E" then
        let '(neg, r) := sign_of s' in
        match digitpart 0 0 r with
        | Some (x, _, r') => Some (if neg then - x else x, r')
        | None => None
        end
      else Some (0, s)
  | EmptyString => Some (0, s)
  end.

(** The decimal part of a float literal: [digits [. [digits]]] or
    [. digits], then the exponent.  Returns mantissa digits and the decimal
    exponent. *)
Definition decimal_of (s : string) : option (Z * Z * string) :=
  let after_point (n : Z) (r : string) (need_digit : bool) :=
    match r with
    | String c r' =>
        if Ascii.eqb c "." then
          match digitpart n 0 r' with
          | Some (n', cnt, r'') =>
              match exponent_of r'' with
              | Some (x, r3) => Some (n', x - cnt, r3)
              | None => None
              end
          | None =>
              if need_digit then None
              else match exponent_of r' with
                   | Some (x, r3) => Some (n, x, r3)
                   | None => None
                   end
          end
        else if need_digit then None
        else match exponent_of r with
             | Some (x, r3) => Some (n, x, r3)
             | None => None
             end
    | EmptyString => if need_digit then None else Some (n, 0, r)
    end in
  match digitpart 0 0 s with
  | Some (n, _, r) => after_point n r false
  | None => after_point 0 s true
  end.

(** [float(s)] for a [str]. *)
Definition float_of_str (s : string) : res float :=
  let '(neg, r) := sign_of (strip s) in
  let w := lower r in
  if String.eqb w "inf" || String.eqb w "infinity" then Ok (S754_infinity neg)
  else if String.eqb w "nan" then Ok S754_nan
  else match decimal_of r with
       | Some (n, k, EmptyString) => Ok (round_decimal neg n k)
       | _ => Raise ValueError
       end.

(** [float(n)] for an [int]: a magnitude of more than 1024 bits, or one
    that rounds up to 2^1024, overflows. *)
Definition float_of_int (z : Z) : res float :=
  if emax <? Z.log2 (Z.abs z) + 1 then Raise OverflowError
  else match round_scaled (z <? 0) (Z.abs z) 0 with
       | S754_infinity _ => Raise OverflowError
       | f => Ok f
       end.

(** [int(f)] for a [float]: truncation toward zero. *)
Definition int_of_float (f : float) : res Z :=
  match f with
  | S754_zero _ => Ok 0
  | S754_finite s m e =>
      let a := if 0 <=? e then Z.shiftl (Zpos m) e else Z.shiftr (Zpos m) (- e) in
      Ok (if s then - a else a)
  | S754_infinity _ => Raise OverflowError
  | S754_nan => Raise ValueError
  end.

(** [float(x)] and [int(x)] on scalars. *)
Definition float_of_scalar (a : scalar) : res float :=
  match a with
  | SNone => Raise TypeError
  | SBool b => Ok (if b then round_scaled false 1 0 else S754_zero false)
  | SInt z => float_of_int z
  | SFloat f => Ok f
  | SStr s => float_of_str s
  end.

Definition int_of_scalar (a : scalar) : res Z :=
  match a with
  | SNone => Raise TypeError
  | SBool b => Ok (if b then 1 else 0)
  | SInt z => Ok z
  | SFloat f => int_of_float f
  | SStr s => int_of_str s
  end.

Definition py_float (v : pyval) : res float :=
  match v with VS a => float_of_scalar a | _ => Raise TypeError end.

Definition py_int (v : pyval) : res Z :=
  match v with VS a => int_of_scalar a | _ => Raise TypeError end.

Definition float_ltb (a b : float) : bool := SFltb a b.

(* --------------------------------------------------------------------- *)
(** ** [str(x)] on scalars *)

(** [str(n)] for an [int]. *)
Definition str_of_int (z : Z) : string := NilZero.string_of_int (Z.to_int z).

Fixpoint zeros (n : nat) : string :=
  match n with O => EmptyString | S n' => String "0" (zeros n') end.

Fixpoint drop (n : nat) (s : string) : string :=
  match n, s with
  | S n', String _ s' => drop n' s'
  | _, _ => s
  end.

(** [f"{n:,}"]: decimal digits in groups of three. *)
Fixpoint group3 (s : string) (lead : nat) : string :=
  match s with
  | EmptyString => EmptyString
  | String c s' =>
      match lead with
      | O => String "," (String c (group3 s' 2))
      | S lead' => String c (group3 s' lead')
      end
  end.

Definition format_commas (z : Z) : string :=
  let ds := str_of_int (Z.abs z) in
  let n := String.length ds in
  let lead := match (n mod 3)%nat with O => 3%nat | r => r end in
  (if z <? 0 then "-" else "") ++ group3 ds lead.

(** [10^L <= p / q] for positive [p] and [q]. *)
Definition ge_pow10 (p q L : Z) : bool :=
  if 0 <=? L then q * 10 ^ L <=? p else q <=? p * 10 ^ (- L).

(** [floor (log10 (p / q))], found from the estimate the bit lengths give. *)
Fixpoint adjust_log10 (fuel : nat) (p q L : Z) : Z :=
  match fuel with
  | O => L
  | S fuel' =>
      if negb (ge_pow10 p q L) then adjust_log10 fuel' p q (L - 1)
      else if ge_pow10 p q (L + 1) then adjust_log10 fuel' p q (L + 1)
      else L
  end.

Definition floor_log10 (p q : Z) : Z :=
  adjust_log10 8 p q (((Z.log2 p - Z.log2 q) * 30103) / 100000).

Definition same_finite (f : float) (m : positive) (e : Z) : bool :=
  match f with
  | S754_finite false m' e' => Pos.eqb m m' && (e =? e')
  | _ => false
  end.

(** The shortest decimal [n * 10^k] that reads back as [m * 2^e]: for each
    digit count [d], the two [d]-digit neighbours of the value are tried,
    the nearer one first. *)
Fixpoint shortest_digits (fuel : nat) (d : Z) (m : positive) (e p q L : Z)
  : Z * Z :=
  let k := L - d + 1 in
  let P := if 0 <=? k then p else p * 10 ^ (- k) in
  let Q := if 0 <=? k then q * 10 ^ k else q in
  let lo := P / Q in
  let r := P mod Q in
  let hi := if r =? 0 then lo else lo + 1 in
  let lo_first := (2 * r <? Q) || ((2 * r =? Q) && Z.even lo) in
  let c1 := if lo_first then lo else hi in
  let c2 := if lo_first then hi else lo in
  match fuel with
  | O => (c1, k)
  | S fuel' =>
      if same_finite (round_decimal false c1 k) m e then (c1, k)
      else if same_finite (round_decimal false c2 k) m e then (c2, k)
      else shortest_digits fuel' (d + 1) m e p q L
  end.

Fixpoint strip_zeros (fuel : nat) (n k : Z) : Z * Z :=
  match fuel with
  | O => (n, k)
  | S fuel' =>
      if (n mod 10 =? 0) && negb (n =? 0) then strip_zeros fuel' (n / 10) (k + 1)
      else (n, k)
  end.

(** [repr] of a positive finite float from its digits and decimal point. *)
Definition repr_digits (n k : Z) : string :=
  let ds := str_of_int n in
  let nd := len ds in
  let decpt := nd + k in
  if (decpt <=? -4) || (16 <? decpt) then
    let x := decpt - 1 in
    let xs := str_of_int (Z.abs x) in
    take 1 ds ++ (if 1 <? nd then "." ++ drop 1 ds else "")
    ++ "e" ++ (if x <? 0 then "-" else "+")
    ++ (if len xs <? 2 then "0" else "") ++ xs
  else if decpt <=? 0 then "0." ++ zeros (Z.to_nat (- decpt)) ++ ds
  else if nd <=? decpt then ds ++ zeros (Z.to_nat (decpt - nd)) ++ ".0"
  else take (Z.to_nat decpt) ds ++ "." ++ drop (Z.to_nat decpt) ds.

(** [str(f)] for a [float]: the shortest representation that round-trips. *)
Definition str_of_float (f : float) : string :=
  match f with
  | S754_nan => "nan"
  | S754_infinity s => if s then "-inf" else "inf"
  | S754_zero s => if s then "-0.0" else "0.0"
  | S754_finite s m e =>
      let p := if 0 <=? e then Zpos m * 2 ^ e else Zpos m in
      let q := if 0 <=? e then 1 else 2 ^ (- e) in
      let '(n, k) := shortest_digits 16 1 m e p q (floor_log10 p q) in
      let '(n', k') := strip_zeros 17 n k in
      (if s then "-" else "") ++ repr_digits n' k'
  end.

(** The text of a scalar. *)
Definition str_of_scalar (a : scalar) : string :=
  match a with
  | SNone => "None"
  | SBool b => if b then "True" else "False"
  | SInt z => str_of_int z
  | SFloat f => str_of_float f
  | SStr s => s
  end.

(** [str(x)]: the text, unless [x] is an [int] of more than
    [int_max_str_digits] digits. *)
Definition py_str (a : scalar) : res string :=
  match a with
  | SInt z => if too_long z then Raise ValueError else Ok (str_of_int z)
  | _ => Ok (str_of_scalar a)
  end.

(* --------------------------------------------------------------------- *)
(** ** Operations on values *)

(** Truth value of [x] in [if x], [not x], [x or y], [x and y]. *)
Definition truthy (v : pyval) : bool :=
  match v with
  | VS SNone => false
  | VS (SBool b) => b
  | VS (SInt z) => negb (z =? 0)
  | VS (SFloat f) => match f with S754_zero _ => false | _ => true end
  | VS (SStr s) => negb (String.eqb s "")
  | VList l | VTuple l | VSet l => match l with [] => false | _ => true end
  | VDict d => match d with [] => false | _ => true end
  end.

(** [x or y] *)
Definition py_or (x y : pyval) : pyval := if truthy x then x else y.

Definition is_dict (v : pyval) : bool :=
  match v with VDict _ => true | _ => false end.
Definition is_list (v : pyval) : bool :=
  match v with VList _ => true | _ => false end.

(** Lookup of a [str] key in the items of a [dict]: a key that is not a
    [str] never equals one. *)
Fixpoint lookup_str (k : string) (d : list (pyval * pyval)) : option pyval :=
  match d with
  | [] => None
  | (VS (SStr k'), v) :: d' => if String.eqb k k' then Some v else lookup_str k d'
  | _ :: d' => lookup_str k d'
  end.

(** [x.get(k, default)]: only a [dict] has the method. *)
Definition py_get (x : pyval) (k : string) (default : pyval) : res pyval :=
  match x with
  | VDict d => Ok (match lookup_str k d with Some v => v | None => default end)
  | _ => Raise AttributeError
  end.

(** [x[k]] for a [str] key [k]. *)
Definition py_getitem (x : pyval) (k : string) : res pyval :=
  match x with
  | VDict d => match lookup_str k d with Some v => Ok v | None => Raise KeyError end
  | _ => Raise TypeError
  end.

(** [x[:n]] for [n >= 0]: a prefix of a sequence.  A [dict] rejects the
    slice (a [TypeError] up to Python 3.11, a [KeyError] from 3.12); the
    other values are not subscriptable. *)
Definition py_slice_to (n : Z) (x : pyval) : res pyval :=
  match x with
  | VS (SStr s) => Ok (VStr (slice_to n s))
  | VList l => Ok (VList (firstn (Z.to_nat n) l))
  | VTuple l => Ok (VTuple (firstn (Z.to_nat n) l))
  | _ => Raise TypeError
  end.

(** [l[:n]] for a list: a negative [n] counts from the end. *)
Definition list_to {A : Type} (n : Z) (l : list A) : list A :=
  if 0 <=? n then firstn (Z.to_nat n) l
  else firstn (length l - Z.to_nat (- n)) l.


(** [x.lower()] *)
Definition py_lower (x : pyval) : res string :=
  match x with
  | VS (SStr s) => Ok (lower s)
  | _ => Raise AttributeError
  end.

Definition chars (s : string) : list pyval :=
  map (fun c => VStr (String c EmptyString)) (list_ascii_of_string s).

(** The items [for y in x] visits. *)
Definition py_iter (x : pyval) : res (list pyval) :=
  match x with
  | VS (SStr s) => Ok (chars s)
  | VList l | VTuple l | VSet l => Ok l
  | VDict d => Ok (map fst d)
  | VS _ => Raise TypeError
  end.

(** [hash(x)] succeeds. *)
Fixpoint hashable (x : pyval) : bool :=
  match x with
  | VS _ => true
  | VTuple l => forallb hashable l
  | VList _ | VSet _ | VDict _ => false
  end.

Definition float_integral (f : float) : option Z :=
  match f with
  | S754_zero _ => Some 0
  | S754_finite s m e =>
      if 0 <=? e then Some ((if s then -1 else 1) * Z.shiftl (Zpos m) e)
      else if Zpos m mod 2 ^ (- e) =? 0
           then Some ((if s then -1 else 1) * Z.shiftr (Zpos m) (- e))
           else None
  | _ => None
  end.

(** The [int] a value compares equal to, if any: [True == 1],
    [28.0 == 28]. *)
Definition as_int_key (x : pyval) : option Z :=
  match x with
  | VS (SInt z) => Some z
  | VS (SBool b) => Some (if b then 1 else 0)
  | VS (SFloat f) => float_integral f
  | _ => None
  end.

(** [x == y] on hashable values (the keys of a [dict], the items of a
    [set]). *)
Definition scalar_eqb (a b : scalar) : bool :=
  match a, b with
  | SNone, SNone => true
  | SStr s, SStr t => String.eqb s t
  | SFloat f, SFloat g => SFeqb f g
  | (SNone | SStr _), _ | _, (SNone | SStr _) => false
  | _, _ =>
      match as_int_key (VS a), as_int_key (VS b) with
      | Some x, Some y => x =? y
      | _, _ => false
      end
  end.

Fixpoint key_eqb (a b : pyval) : bool :=
  match a, b with
  | VS x, VS y => scalar_eqb x y
  | VTuple l1, VTuple l2 =>
      (fix go (l1 l2 : list pyval) : bool :=
         match l1, l2 with
         | [], [] => true
         | x :: l1', y :: l2' => key_eqb x y && go l1' l2'
         | _, _ => false
         end) l1 l2
  | _, _ => false
  end.

(** [d[k] = v]: an equal key keeps its place and takes the new value. *)
Fixpoint dict_set (d : list (pyval * pyval)) (k v : pyval) : list (pyval * pyval) :=
  match d with
  | [] => [(k, v)]
  | (k', v') :: d' =>
      if key_eqb k' k then (k', v) :: d' else (k', v') :: dict_set d' k v
  end.

(** [s.add(x)] *)
Definition set_add (l : list pyval) (x : pyval) : list pyval :=
  if existsb (fun y => key_eqb y x) l then l else l ++ [x].

(** [sep.join(l)]: every item has to be a [str]. *)
Fixpoint strs (l : list pyval) : res (list string) :=
  match l with
  | [] => Ok []
  | VS (SStr s) :: l' => rest ← strs l'; Ok (s :: rest)
  | _ :: _ => Raise TypeError
  end.

Definition py_join (sep : string) (l : list pyval) : res string :=
  ss ← strs l; Ok (join sep ss).

(** [a == s] for a scalar [a] and a [str] [s]. *)
Definition eq_str (a : scalar) (s : string) : bool :=
  match a with SStr t => String.eqb t s | _ => false end.

(** [sub in s] for two [str]. *)
Fixpoint contains (sub s : string) : bool :=
  startswith s sub
  || match s with
     | String _ s' => contains sub s'
     | EmptyString => false
     end.

(** [s.split(c)] for a one-character separator. *)
Fixpoint split_on (c : ascii) (s : string) : list string :=
  match s with
  | EmptyString => [EmptyString]
  | String a s' =>
      if Ascii.eqb a c then EmptyString :: split_on c s'
      else match split_on c s' with
           | h :: t => String a h :: t
           | [] => [String a EmptyString]
           end
  end.

(** A computation that does not raise [KeyboardInterrupt]. *)
Definition quiet {A : Type} (m : res A) : Prop := m ≠ Raise KeyboardInterrupt.

(* --------------------------------------------------------------------- *)
(** ** The two decoders of the standard library

    [json.loads] and [ast.literal_eval] are library code.  The parsers take
    them through this interface, so that a statement about the parsers
    holds for whatever the decoders do; [Module Ref] below gives reference
    decoders for evaluating the parsers on concrete text. *)

Class Decoders := {
  json_loads : string → res pyval;
  literal_eval : string → res pyval
}.

End Py.

(* ===================================================================== *)
(** * Reference decoders

    Executable models of [json.loads] and [ast.literal_eval] on a fragment
    of their input languages, used to evaluate the parsers on concrete text.

    [json_loads] follows the [json] module's scanner: the four JSON
    whitespace characters, [null], [true], [false], [NaN], [Infinity],
    numbers ([int] without fraction and exponent, else [float]; an integer
    of more than [int_max_str_digits] digits raises the [ValueError] of
    [int], which is not a [JSONDecodeError]), strings with the
    two-character escapes and [\u00XX], arrays and objects (a repeated key
    keeps its place and takes the last value).

    [literal_eval] parses an expression and then converts it as
    [ast.literal_eval]'s [_convert] does: decimal numbers, one-line strings
    in single or double quotes, [None], [True], [False], names, unary signs,
    lists, tuples, sets and dicts.  A comment runs from [#] to the end of
    its line; a line end is white space between brackets and ends the
    expression outside them; blank and comment lines may come before and
    after the expression.

    Outside the fragments (escapes beyond Latin-1, bytes and complex
    literals, other number bases, string prefixes and concatenation, triple
    quotes) the decoders report a decoding error where CPython may return a
    value, and for a rejected input [literal_eval] may report [ValueError]
    where CPython reports [SyntaxError] or conversely.  The recursion and
    memory limits of CPython are not modelled. *)
(* ===================================================================== *)

Module Ref.
Import Py.

Definition is_ch (c : ascii) (s : string) : bool :=
  match s with String d EmptyString => Ascii.eqb c d | _ => false end.

Definition json_ws (c : ascii) : bool :=
  is_ch c " " || (code c =? 9) || (code c =? 10) || (code c =? 13).

Fixpoint skip (ws : ascii → bool) (s : string) : string :=
  match s with
  | String c s' => if ws c then skip ws s' else s
  | EmptyString => EmptyString
  end.

Definition cons_str (c : ascii) (r : option (string * string))
  : option (string * string) :=
  match r with Some (t, rest) => Some (String c t, rest) | None => None end.

Definition hex_val (c : ascii) : option Z :=
  let n := code c in
  if (48 <=? n) && (n <=? 57) then Some (n - 48)
  else if (97 <=? n) && (n <=? 102) then Some (n - 87)
  else if (65 <=? n) && (n <=? 70) then Some (n - 55)
  else None.

Definition json_escape (c : ascii) : option ascii :=
  if Ascii.eqb c dquote then Some c
  else if is_ch c "\" then Some c
  else if is_ch c "/" then Some c
  else if is_ch c "b" then Some (chr 8)
  else if is_ch c "f" then Some (chr 12)
  else if is_ch c "n" then Some (chr 10)
  else if is_ch c "r" then Some (chr 13)
  else if is_ch c "t" then Some (chr 9)
  else None.

(** The body of a JSON string after its opening quote. *)
Fixpoint json_string (s : string) : option (string * string) :=
  match s with
  | EmptyString => None
  | String c r =>
      if Ascii.eqb c dquote then Some (EmptyString, r)
      else if is_ch c "\" then
        match r with
        | String e r' =>
            match json_escape e with
            | Some ch => cons_str ch (json_string r')
            | None =>
                match r' with
                | String h1 (String h2 (String h3 (String h4 r''))) =>
                    match is_ch e "u", hex_val h1, hex_val h2, hex_val h3, hex_val h4 with
                    | true, Some 0, Some 0, Some a, Some b =>
                        cons_str (chr (16 * a + b)) (json_string r'')
                    | _, _, _, _, _ => None
                    end
                | _ => None
                end
            end
        | EmptyString => None
        end
      else if code c <? 32 then None
      else cons_str c (json_string r)
  end.

(** What a scanner gives: a value and the unread rest, a decoding error,
    or an exception of another class. *)
Inductive scan :=
| Got (v : pyval) (rest : string)
| Bad
| Error (e : exn).

Fixpoint digits_span (s : string) : string * string :=
  match s with
  | String c s' =>
      match digit_val c with
      | Some _ => let '(d, r) := digits_span s' in (String c d, r)
      | None => (EmptyString, s)
      end
  | EmptyString => (EmptyString, s)
  end.

(** A JSON number at the head of [s]: an optional minus, then a zero or a
    digit string without leading zero, then an optional fraction (a point
    and digits) and an optional exponent (e or E, a sign, digits). *)
Definition json_number (s : string) : scan :=
  let '(neg, r) :=
    match s with
    | String c r => if is_ch c "-" then (true, r) else (false, s)
    | EmptyString => (false, s)
    end in
  let '(ds, r1) := digits_span r in
  match ds with
  | EmptyString => Bad
  | String d0 ds' =>
      let '(ip, r2) :=
        if is_ch d0 "0" then (String d0 EmptyString, (ds' ++ r1)%string)
        else (ds, r1) in
      let '(frac, r3) :=
        match r2 with
        | String c r' =>
            if is_ch c "." then
              match digits_span r' with
              | (EmptyString, _) => (EmptyString, r2)
              | (fs, r'') => (String c fs, r'')
              end
            else (EmptyString, r2)
        | EmptyString => (EmptyString, r2)
        end in
      let '(ex, r4) :=
        match r3 with
        | String c r' =>
            if is_ch c "e" || is_ch c "E" then
              let '(sg, r'') :=
                match r' with
                | String c2 t =>
                    if is_ch c2 "-" || is_ch c2 "+"
                    then (String c2 EmptyString, t) else (EmptyString, r')
                | EmptyString => (EmptyString, r')
                end in
              match digits_span r'' with
              | (EmptyString, _) => (EmptyString, r3)
              | (es, t) => ((String c sg ++ es)%string, t)
              end
            else (EmptyString, r3)
        | EmptyString => (EmptyString, r3)
        end in
      let text := ((if neg then "-" else "") ++ ip ++ frac ++ ex)%string in
      match frac, ex with
      | EmptyString, EmptyString =>
          match int_of_str text with Ok z => Got (VInt z) r4 | Raise e => Error e end
      | _, _ =>
          match float_of_str text with Ok f => Got (VFloat f) r4 | Raise _ => Bad end
      end
  end.

Definition strip_prefix (p s : string) : option string :=
  if startswith s p then Some (drop (String.length p) s) else None.

Fixpoint json_items (n : nat) (pv : string → scan)
  (s : string) (acc : list pyval) : scan :=
  match n with
  | O => Bad
  | S n' =>
      match pv s with
      | Got v r =>
          match skip json_ws r with
          | String c r' =>
              if is_ch c "," then json_items n' pv (skip json_ws r') (acc ++ [v])
              else if is_ch c "]" then Got (VList (acc ++ [v])) r'
              else Bad
          | EmptyString => Bad
          end
      | Bad => Bad
      | Error e => Error e
      end
  end.

Fixpoint json_members (n : nat) (pv : string → scan)
  (s : string) (acc : list (pyval * pyval)) : scan :=
  match n with
  | O => Bad
  | S n' =>
      match s with
      | String q r =>
          if Ascii.eqb q dquote then
            match json_string r with
            | Some (k, r1) =>
                match skip json_ws r1 with
                | String c r2 =>
                    if is_ch c ":" then
                      match pv (skip json_ws r2) with
                      | Got v r3 =>
                          let acc' := dict_set acc (VStr k) v in
                          match skip json_ws r3 with
                          | String d r4 =>
                              if is_ch d "," then json_members n' pv (skip json_ws r4) acc'
                              else if is_ch d "}" then Got (VDict acc') r4
                              else Bad
                          | EmptyString => Bad
                          end
                      | Bad => Bad
                      | Error e => Error e
                      end
                    else Bad
                | EmptyString => Bad
                end
            | None => Bad
            end
          else Bad
      | EmptyString => Bad
      end
  end.

(** One JSON value at the head of [s] (leading whitespace already
    skipped). *)
Fixpoint json_value (fuel : nat) (s : string) : scan :=
  match fuel with
  | O => Bad
  | S fuel' =>
      match s with
      | EmptyString => Bad
      | String c r =>
          if Ascii.eqb c dquote then
            match json_string r with
            | Some (t, r') => Got (VStr t) r'
            | None => Bad
            end
          else if is_ch c "[" then
            match skip json_ws r with
            | String d r' =>
                if is_ch d "]" then Got (VList []) r'
                else json_items fuel' (json_value fuel') (skip json_ws r) []
            | EmptyString => Bad
            end
          else if is_ch c "{" then
            match skip json_ws r with
            | String d r' =>
                if is_ch d "}" then Got (VDict []) r'
                else json_members fuel' (json_value fuel') (skip json_ws r) []
            | EmptyString => Bad
            end
          else match strip_prefix "null" s, strip_prefix "true" s,
                     strip_prefix "false" s, strip_prefix "NaN" s,
                     strip_prefix "Infinity" s, strip_prefix "-Infinity" s with
               | Some r', _, _, _, _, _ => Got VNone r'
               | _, Some r', _, _, _, _ => Got (VBool true) r'
               | _, _, Some r', _, _, _ => Got (VBool false) r'
               | _, _, _, Some r', _, _ => Got (VFloat S754_nan) r'
               | _, _, _, _, Some r', _ => Got (VFloat (S754_infinity false)) r'
               | _, _, _, _, _, Some r' => Got (VFloat (S754_infinity true)) r'
               | _, _, _, _, _, _ => json_number s
               end
      end
  end.

Definition json_loads (s : string) : res pyval :=
  match json_value (S (String.length s)) (skip json_ws s) with
  | Got v r =>
      match skip json_ws r with
      | EmptyString => Ok v
      | _ => Raise JSONDecodeError
      end
  | Bad => Raise JSONDecodeError
  | Error e => Raise e
  end.


(** The expressions [ast.parse] builds, as far as the fragment goes. *)
Inductive ast :=
| AConst (a : scalar)
| AName (x : string)
| AUnary (neg : bool) (e : ast)
| AList (l : list ast)
| ATuple (l : list ast)
| ASet (l : list ast)
| ADict (d : list (ast * ast)).

Definition py_ws (c : ascii) : bool :=
  json_ws c || (code c =? 12).

Definition line_end (c : ascii) : bool := (code c =? 10) || (code c =? 13).

(** White space inside a line: space, tab, form feed. *)
Definition py_blank (c : ascii) : bool := py_ws c && negb (line_end c).

(** Between brackets: white space, line ends and comments are skipped. *)
Fixpoint skip_py (in_comment : bool) (s : string) : string :=
  match s with
  | String c s' =>
      if in_comment then skip_py (negb (line_end c)) s'
      else if py_ws c then skip_py false s'
      else if is_ch c "#" then skip_py true s'
      else s
  | EmptyString => EmptyString
  end.

Definition skip_in (s : string) : string := skip_py false s.

Fixpoint skip_comment (s : string) : string :=
  match s with
  | String c s' => if line_end c then s else skip_comment s'
  | EmptyString => EmptyString
  end.

(** Outside brackets: white space and a comment are skipped up to the end
    of the line. *)
Definition skip_out (s : string) : string :=
  match skip py_blank s with
  | String c r => if is_ch c "#" then skip_comment r else String c r
  | EmptyString => EmptyString
  end.

(** Nothing but blank and comment lines is left. *)
Definition at_end (s : string) : bool :=
  match s with
  | EmptyString => true
  | String c _ => line_end c && String.eqb (skip_in s) ""
  end.

(** The blank and comment lines before the expression; the expression
    starts its line, unless that is the [first] line. *)
Fixpoint skip_lead (n : nat) (first : bool) (s : string) : option string :=
  match n with
  | O => None
  | S n' =>
      match skip_out s with
      | EmptyString => Some EmptyString
      | String c r =>
          if line_end c then skip_lead n' false r
          else if first || String.eqb (skip_out s) s then Some (String c r)
          else None
      end
  end.

Definition ident_start (c : ascii) : bool :=
  let n := code c in
  ((65 <=? n) && (n <=? 90)) || ((97 <=? n) && (n <=? 122)) || (n =? 95).

Definition ident_char (c : ascii) : bool :=
  ident_start c || match digit_val c with Some _ => true | None => false end.

Fixpoint ident_span (s : string) : string * string :=
  match s with
  | String c s' =>
      if ident_char c then let '(x, r) := ident_span s' in (String c x, r)
      else (EmptyString, s)
  | EmptyString => (EmptyString, s)
  end.

(** The body of a string literal after its opening [quote]. *)
Fixpoint py_string (quote : ascii) (s : string) : option (string * string) :=
  match s with
  | EmptyString => None
  | String c r =>
      if Ascii.eqb c quote then Some (EmptyString, r)
      else if is_ch c "\" then
        match r with
        | String e r' =>
            if is_ch e "\" || Ascii.eqb e squote || Ascii.eqb e dquote
            then cons_str e (py_string quote r')
            else if is_ch e "n" then cons_str (chr 10) (py_string quote r')
            else if is_ch e "r" then cons_str (chr 13) (py_string quote r')
            else if is_ch e "t" then cons_str (chr 9) (py_string quote r')
            else if ident_char e || (code e =? 10) then None
            else cons_str c (cons_str e (py_string quote r'))
        | EmptyString => None
        end
      else if code c =? 10 then None
      else cons_str c (py_string quote r)
  end.

Definition no_ident_follows (s : string) : bool :=
  match s with String c _ => negb (ident_char c) | EmptyString => true end.

(** A number literal at the head of [s]: an [int] unless it has a point or
    an exponent. *)
Definition py_number (s : string) : option (scalar * string) :=
  let as_float :=
    match decimal_of s with
    | Some (n, k, r) =>
        if no_ident_follows r then Some (SFloat (round_decimal false n k), r)
        else None
    | None => None
    end in
  let as_int (n cnt : Z) (r : string) :=
    if startswith s "0" && negb (n =? 0) then None
    else if int_max_str_digits <? cnt then None
    else Some (SInt n, r) in
  match digitpart 0 0 s with
  | Some (n, cnt, r) =>
      match r with
      | String c _ =>
          if is_ch c "." || is_ch c "e" || is_ch c "E" then as_float
          else if ident_char c then None
          else as_int n cnt r
      | EmptyString => as_int n cnt r
      end
  | None => as_float
  end.

(** Expressions separated by commas up to [close]; the flag tells whether a
    comma was seen. *)
Fixpoint py_items (n : nat) (pe : string → option (ast * string))
  (close : ascii) (s : string) (acc : list ast) (comma : bool)
  : option (list ast * bool * string) :=
  match n with
  | O => None
  | S n' =>
      match s with
      | EmptyString => None
      | String c r =>
          if Ascii.eqb c close then Some (acc, comma, r)
          else
            match pe s with
            | Some (a, r1) =>
                match skip_in r1 with
                | String d r2 =>
                    if is_ch d "," then
                      py_items n' pe close (skip_in r2) (acc ++ [a])%list true
                    else if Ascii.eqb d close then Some ((acc ++ [a])%list, comma, r2)
                    else None
                | EmptyString => None
                end
            | None => None
            end
      end
  end.

(** [key: value] pairs separated by commas up to the closing brace. *)
Fixpoint py_pairs (n : nat) (pe : string → option (ast * string))
  (s : string) (acc : list (ast * ast)) : option (list (ast * ast) * string) :=
  match n with
  | O => None
  | S n' =>
      match s with
      | EmptyString => None
      | String c r =>
          if is_ch c "}" then Some (acc, r)
          else
            match pe s with
            | Some (k, r1) =>
                match skip_in r1 with
                | String d r2 =>
                    if is_ch d ":" then
                      match pe (skip_in r2) with
                      | Some (v, r3) =>
                          match skip_in r3 with
                          | String f r4 =>
                              if is_ch f "," then
                                py_pairs n' pe (skip_in r4) (acc ++ [(k, v)])%list
                              else if is_ch f "}" then Some ((acc ++ [(k, v)])%list, r4)
                              else None
                          | EmptyString => None
                          end
                      | None => None
                      end
                    else None
                | EmptyString => None
                end
            | None => None
            end
      end
  end.

Definition name_or_const (x : string) : ast :=
  if String.eqb x "None" then AConst SNone
  else if String.eqb x "True" then AConst (SBool true)
  else if String.eqb x "False" then AConst (SBool false)
  else AName x.

(** One expression at the head of [s] (leading whitespace already
    skipped); [inner] tells whether it stands between brackets. *)
Fixpoint py_expr (fuel : nat) (inner : bool) (s : string) : option (ast * string) :=
  match fuel with
  | O => None
  | S fuel' =>
      match s with
      | EmptyString => None
      | String c r =>
          if is_ch c "-" || is_ch c "+" then
            match py_expr fuel' inner (if inner then skip_in r else skip_out r) with
            | Some (a, r') => Some (AUnary (is_ch c "-") a, r')
            | None => None
            end
          else if is_ch c "[" then
            match py_items fuel' (py_expr fuel' true) "]" (skip_in r) [] false with
            | Some (l, _, r') => Some (AList l, r')
            | None => None
            end
          else if is_ch c "(" then
            match py_items fuel' (py_expr fuel' true) ")" (skip_in r) [] false with
            | Some ([a], false, r') => Some (a, r')
            | Some (l, _, r') => Some (ATuple l, r')
            | None => None
            end
          else if is_ch c "{" then
            match py_pairs fuel' (py_expr fuel' true) (skip_in r) [] with
            | Some (d, r') => Some (ADict d, r')
            | None =>
                match py_items fuel' (py_expr fuel' true) "}" (skip_in r) [] false with
                | Some (a :: l, _, r') => Some (ASet (a :: l), r')
                | _ => None
                end
            end
          else if Ascii.eqb c squote || Ascii.eqb c dquote then
            match py_string c r with
            | Some (t, r') => Some (AConst (SStr t), r')
            | None => None
            end
          else if ident_start c then
            let '(x, r') := ident_span s in Some (name_or_const x, r')
          else
            match py_number s with
            | Some (a, r') => Some (AConst a, r')
            | None => None
            end
      end
  end.

(** A whole expression: one expression, or a tuple written without
    parentheses. *)
Fixpoint py_tail (n : nat) (pe : string → option (ast * string))
  (s : string) (acc : list ast) : option ast :=
  match n with
  | O => None
  | S n' =>
      if at_end s then Some (ATuple acc)
      else
        match pe s with
        | Some (a, r) =>
            let r1 := skip_out r in
            if at_end r1 then Some (ATuple (acc ++ [a])%list)
            else match r1 with
                 | String d r' =>
                     if is_ch d "," then py_tail n' pe (skip_out r') (acc ++ [a])%list
                     else None
                 | EmptyString => None
                 end
        | None => None
        end
  end.

Definition py_parse (s : string) : option ast :=
  let fuel := S (String.length s) in
  match skip_lead fuel true s with
  | Some s0 =>
      match py_expr fuel false s0 with
      | Some (a, r) =>
          let r1 := skip_out r in
          if at_end r1 then Some a
          else match r1 with
               | String d r' =>
                   if is_ch d "," then py_tail fuel (py_expr fuel false) (skip_out r') [a]
                   else None
               | EmptyString => None
               end
      | None => None
      end
  | None => None
  end.

Definition is_number (a : scalar) : bool :=
  match a with SInt _ | SFloat _ => true | _ => false end.

Definition negate (a : scalar) : scalar :=
  match a with
  | SInt z => SInt (- z)
  | SFloat f => SFloat (SFopp f)
  | _ => a
  end.

(** [_convert] of [ast.literal_eval]: a name, or a sign in front of
    anything but a number, is a malformed node; a [dict] key or a [set]
    item is hashed when it is inserted. *)
Fixpoint convert (a : ast) : res pyval :=
  match a with
  | AConst v => Ok (VS v)
  | AName _ => Raise ValueError
  | AUnary neg (AConst v) =>
      if is_number v then Ok (VS (if neg then negate v else v))
      else Raise ValueError
  | AUnary _ _ => Raise ValueError
  | AList l =>
      bind ((fix go (l : list ast) : res (list pyval) :=
               match l with
               | [] => Ok []
               | x :: l' =>
                   bind (convert x) (fun v => bind (go l') (fun vs => Ok (v :: vs)))
               end) l)
           (fun vs => Ok (VList vs))
  | ATuple l =>
      bind ((fix go (l : list ast) : res (list pyval) :=
               match l with
               | [] => Ok []
               | x :: l' =>
                   bind (convert x) (fun v => bind (go l') (fun vs => Ok (v :: vs)))
               end) l)
           (fun vs => Ok (VTuple vs))
  | ASet l =>
      (fix go (l : list ast) (acc : list pyval) : res pyval :=
         match l with
         | [] => Ok (VSet acc)
         | x :: l' =>
             bind (convert x) (fun v =>
               if hashable v then go l' (set_add acc v) else Raise TypeError)
         end) l []
  | ADict d =>
      (fix go (d : list (ast * ast)) (acc : list (pyval * pyval)) : res pyval :=
         match d with
         | [] => Ok (VDict acc)
         | (k, x) :: d' =>
             bind (convert k) (fun kv =>
               bind (convert x) (fun v =>
                 if hashable kv then go d' (dict_set acc kv v)
                 else Raise TypeError))
         end) d []
  end.

Definition sp_tab (c : ascii) : bool := is_ch c " " || (code c =? 9).

Definition literal_eval (s : string) : res pyval :=
  match py_parse (skip sp_tab s) with
  | Some a => convert a
  | None => Raise SyntaxError
  end.

#[export] Instance decoders : Decoders :=
  {| Py.json_loads := json_loads; Py.literal_eval := literal_eval |}.

End Ref.

(* ===================================================================== *)
(** * movies/services/tmdb_parser.py *)
(* ===================================================================== *)

(** The dict of Movie model fields both normalisers return.  A field holds
    a [pyval] where the source passes a value of the input through, and a
    typed value where the source builds it. *)
Record Fields := {
  tmdb_id : Z;
  title : Py.pyval;
  year : Z;
  genres : string;
  overview : Py.pyval;
  poster_path : string;
  popularity : Py.float;
  language : Py.pyval;
  imdb_id : string;
  imdb_rating : option Py.float;
  imdb_votes : string;
  metascore : option Z;
  rotten_tomatoes : string;
  director : string;
  writer : string;
  actors : string;
  rated : string;
  released : Py.pyval;
  country : string;
  awards : string;
  box_office : string;
  production : string;
  runtime : option Z
}.

(** What a generator yields, pull by pull; the pull that raises is the
    last one. *)
Definition stream (A : Type) := list (Py.res A).

(** A generator that handles one input item per step and yields at most
    one value for it. *)
Fixpoint generate {A B} (f : A → Py.res (option B)) (l : list A) : stream B :=
  match l with
  | [] => []
  | x :: l' =>
      match f x with
      | Py.Ok None => generate f l'
      | Py.Ok (Some y) => Py.Ok y :: generate f l'
      | Py.Raise e => [Py.Raise e]
      end
  end.

Definition zero : Py.float := S754_zero false.

Definition poster_base : string := "https://image.tmdb.org/t/p/w500".

Module TMDBParser.
Import Py.

Definition GENRE_MAP : gmap Z string :=
  list_to_map
    [ (28, "Action"); (12, "Adventure"); (16, "Animation"); (35, "Comedy");
      (80, "Crime"); (99, "Documentary"); (18, "Drama"); (10751, "Family");
      (14, "Fantasy"); (36, "History"); (27, "Horror"); (10402, "Music");
      (9648, "Mystery"); (10749, "Romance"); (878, "Science Fiction");
      (10770, "TV Movie"); (53, "Thriller"); (10752, "War"); (37, "Western") ].

Definition is_none (v : pyval) : bool :=
  match v with VS SNone => true | _ => false end.

(** [_is_valid_movie]: the value of
    [isinstance(movie, dict) and movie.get('id') is not None and
     movie.get('title') or movie.get('original_title')],
    where [and] binds tighter than [or]. *)
Definition _is_valid_movie (movie : pyval) : res pyval :=
  conj ← (if is_dict movie then
            id ← py_get movie "id" VNone;
            if negb (is_none id) then py_get movie "title" VNone
            else Ok (VBool false)
          else Ok (VBool false));
  if truthy conj then Ok conj else py_get movie "original_title" VNone.

(** [stream_movies] reads the file through the ijson library when it is
    installed and through [_stream_fallback] otherwise; both validate every
    decoded object with [_is_valid_movie].  The embedding follows
    [_stream_fallback], on the lines of the file as the file iterator
    delivers them. *)
Section Streaming.
Context `{Decoders}.

(** The body of the [try] that both line loops share: decode the line,
    validate, yield. *)
Definition decode_line (line : string) : res (option pyval) :=
  try_except
    (movie ← json_loads line;
     valid ← _is_valid_movie movie;
     Ok (if truthy valid then Some movie else None))
    [JSONDecodeError] (Ok None).

Definition strip_comma (line : string) : string :=
  if endswith_char line "," then drop_last line else line.

(** One line of [_parse_json_array]. *)
Definition array_line (line : string) : res (option pyval) :=
  let line := strip line in
  if String.eqb line "" || str_in line ["["; "]"] then Ok None
  else decode_line (strip_comma line).

Definition _parse_json_array (f : list string) : stream pyval :=
  generate array_line f.

(** One line of the JSONL branch of [_stream_fallback]. *)
Definition jsonl_line (line : string) : res (option pyval) :=
  let line := strip line in
  if negb (String.eqb line "") && negb (startswith line "[")
     && negb (startswith line "]")
  then decode_line (strip_comma line)
  else Ok None.

(** [_stream_fallback] on the lines of the file. *)
Definition _stream_fallback (f : list string) : stream pyval :=
  match f with
  | String c _ :: _ =>
      if Ascii.eqb c "[" then _parse_json_array f else generate jsonl_line f
  | _ => generate jsonl_line f
  end.

End Streaming.

(** [parse_genres]: a value that is not hashable cannot be looked up. *)
Fixpoint genre_names (l : list pyval) : res (list string) :=
  match l with
  | [] => Ok []
  | gid :: l' =>
      if hashable gid then
        rest ← genre_names l';
        Ok (match as_int_key gid with
            | Some z => match GENRE_MAP !! z with
                        | Some name => name :: rest
                        | None => rest
                        end
            | None => rest
            end)
      else Raise TypeError
  end.

Definition parse_genres (genre_ids : pyval) : res string :=
  if negb (truthy genre_ids) then Ok ""
  else items ← py_iter genre_ids;
       names ← genre_names items;
       Ok (join ", " names).

Definition parse_release_year (release_date : pyval) : res (option Z) :=
  if negb (truthy release_date) then Ok None
  else
    try_except
      (match release_date with
       | VS (SStr s) =>
           if 4 <=? len s then
             year ← int_of_str (slice_to 4 s);
             Ok (if (1888 <=? year) && (year <=? 2100) then Some year else None)
           else Ok None
       | _ => Ok None
       end)
      [ValueError; TypeError] (Ok None).

Definition movie_to_django_fields (movie_data : pyval) : res (option Fields) :=
  t ← py_get movie_data "title" VNone;
  title ← (if truthy t then Ok t else py_get movie_data "original_title" VNone);
  if negb (truthy title) then Ok None
  else
    rd ← py_get movie_data "release_date" VNone;
    year ← parse_release_year rd;
    match year with
    | None => Ok None
    | Some year =>
        if year =? 0 then Ok None
        else
          genre_ids ← py_get movie_data "genre_ids" (VList []);
          genres ← parse_genres genre_ids;
          pp ← py_get movie_data "poster_path" (VStr "");
          poster_path ←
            match py_or pp (VStr "") with
            | VS (SStr p) =>
                Ok (if negb (String.eqb p "") && negb (startswith p "http")
                    then (poster_base ++ p)%string else p)
            | _ => Raise AttributeError
            end;
          pop ← py_get movie_data "popularity" (VFloat zero);
          popularity ← try_except (py_float pop) [ValueError; TypeError] (Ok zero);
          ov ← py_get movie_data "overview" (VStr "");
          let overview := py_or ov (VStr "") in
          lang ← py_get movie_data "original_language" (VStr "");
          let language := py_or lang (VStr "") in
          id ← py_getitem movie_data "id";
          tmdb_id ← py_int id;
          title' ← py_slice_to 255 title;
          language' ← py_slice_to 200 language;
          rel ← py_get movie_data "release_date" (VStr "");
          Ok (Some
            {| tmdb_id := tmdb_id;
               title := title';
               year := year;
               genres := slice_to 500 genres;
               overview := overview;
               poster_path := slice_to 500 poster_path;
               popularity := popularity;
               language := language';
               imdb_id := "";
               imdb_rating := None;
               imdb_votes := "";
               metascore := None;
               rotten_tomatoes := "";
               director := "";
               writer := "";
               actors := "";
               rated := "";
               released := py_or rel (VStr "");
               country := "";
               awards := "";
               box_office := "";
               production := "";
               runtime := None |})
    end.

End TMDBParser.

Module KaggleTMDBParser.
Import Py.

Section Parser.
Context `{Decoders}.

Definition _parse_json_field (value : string) : res pyval :=
  if negb (truthy (VStr value)) || str_in value [""; "[]"; "{}"; "nan"; "None"]
  then Ok VNone
  else
    try_except (json_loads (replace_char squote dquote value))
      [JSONDecodeError; TypeError]
      (try_except (literal_eval value) [ValueError; SyntaxError] (Ok VNone)).

(** The name an item of a genre, cast or company list contributes:
    [item['name']] of a dict that has the key, or the item itself when it
    is a [str]. *)
Definition named_item (item : pyval) : option pyval :=
  match item with
  | VDict d => lookup_str "name" d
  | VS (SStr _) => Some item
  | _ => None
  end.

Definition _extract_genres (genres_str : string) : res string :=
  parsed ← _parse_json_field genres_str;
  if negb (truthy parsed) then Ok ""
  else match parsed with
       | VList l => py_join ", " (omap named_item l)
       | _ => Ok ""
       end.

Definition _extract_cast (cast_str : string) (limit : Z) : res string :=
  parsed ← _parse_json_field cast_str;
  if negb (truthy parsed) then Ok ""
  else match parsed with
       | VList l => py_join ", " (omap named_item (list_to limit l))
       | _ => Ok ""
       end.

(** The loop of [_extract_crew]. *)
Fixpoint crew_names (l : list pyval) (directors writers : list pyval)
  : res (list pyval * list pyval) :=
  match l with
  | [] => Ok (directors, writers)
  | VDict d :: l' =>
      job ← py_lower (default (VStr "") (lookup_str "job" d));
      let name := default (VStr "") (lookup_str "name" d) in
      if String.eqb job "director" && truthy name
      then crew_names l' (directors ++ [name])%list writers
      else if str_in job ["writer"; "screenplay"; "story"] && truthy name
      then crew_names l' directors (writers ++ [name])%list
      else crew_names l' directors writers
  | _ :: l' => crew_names l' directors writers
  end.

(** [_extract_crew]: the pair is the dict with the keys [director] and
    [writer]. *)
Definition _extract_crew (crew_str : string) : res (string * string) :=
  parsed ← _parse_json_field crew_str;
  if negb (truthy parsed) || negb (is_list parsed) then Ok ("", "")
  else match parsed with
       | VList l =>
           '(directors, writers) ← crew_names l [] [];
           d ← py_join ", " (firstn 3 directors);
           w ← py_join ", " (firstn 3 writers);
           Ok (d, w)
       | _ => Ok ("", "")
       end.

Definition _extract_production_companies (prod_str : string) : res string :=
  parsed ← _parse_json_field prod_str;
  if negb (truthy parsed) then Ok ""
  else match parsed with
       | VList l => py_join ", " (omap named_item (firstn 5 l))
       | _ => Ok ""
       end.

(** The first truthy value among the keys, else the default of the last
    one: [item.get(k1) or ... or item.get(kn, '')]. *)
Fixpoint first_of (d : list (pyval * pyval)) (keys : list string) : pyval :=
  match keys with
  | [] => VStr ""
  | [k] => default (VStr "") (lookup_str k d)
  | k :: keys' => py_or (default VNone (lookup_str k d)) (first_of d keys')
  end.

Definition keyed_item (keys : list string) (item : pyval) : option pyval :=
  match item with
  | VDict d => let name := first_of d keys in
               if truthy name then Some name else None
  | VS (SStr _) => Some item
  | _ => None
  end.

Definition _extract_countries (countries_str : string) : res string :=
  parsed ← _parse_json_field countries_str;
  if negb (truthy parsed) then Ok ""
  else match parsed with
       | VList l => py_join ", " (omap (keyed_item ["name"; "iso_3166_1"]) l)
       | _ => Ok ""
       end.

Definition _extract_languages (lang_str : string) : res string :=
  parsed ← _parse_json_field lang_str;
  if negb (truthy parsed) then Ok ""
  else match parsed with
       | VList l =>
           py_join ", " (omap (keyed_item ["english_name"; "name"; "iso_639_1"]) l)
       | _ => Ok ""
       end.

Definition _parse_year (release_date : scalar) : res (option Z) :=
  if negb (truthy (VS release_date))
     || existsb (eq_str release_date) [""; "nan"; "None"]
  then Ok None
  else
    try_except
      (s ← py_str release_date;
       if 4 <=? len s then
         year ← int_of_str (slice_to 4 s);
         Ok (if (1888 <=? year) && (year <=? 2100) then Some year else None)
       else Ok None)
      [ValueError; TypeError] (Ok None).

(** The guard [_safe_float] and [_safe_int] share, for a value whose
    [str] returns. *)
Definition is_blank (value : scalar) : bool :=
  match value with SNone => true | _ => false end
  || eq_str value ""
  || str_in (lower (str_of_scalar value)) ["nan"; "none"; ""].

(** The guard stands before the [try]: its [str(value)] is reached by
    every value but [None] and the empty text, for which [str] returns
    anyway, and raises for an [int] beyond the digit limit. *)
Definition _safe_float (value : scalar) : res (option float) :=
  _ ← py_str value;
  if is_blank value then Ok None
  else try_except (f ← float_of_scalar value; Ok (Some f))
         [ValueError; TypeError] (Ok None).

Definition _safe_int (value : scalar) : res (option Z) :=
  _ ← py_str value;
  if is_blank value then Ok None
  else try_except (f ← float_of_scalar value; z ← int_of_float f; Ok (Some z))
         [ValueError; TypeError] (Ok None).

(** The helper [get] of [_row_to_movie]. *)
Definition get (row : gmap string scalar) (key : string) (dflt : scalar) : scalar :=
  let val := default dflt (row !! key) in
  match val with
  | SNone => dflt
  | SFloat _ => if String.eqb (str_of_scalar val) "nan" then dflt else val
  | _ => val
  end.

(** The text of a column, where [str] returns. *)
Definition gets (row : gmap string scalar) (key : string) (dflt : string) : string :=
  str_of_scalar (get row key (SStr dflt)).

(** [str(get(key, default))] *)
Definition text (row : gmap string scalar) (key : string) (dflt : string)
  : res string :=
  py_str (get row key (SStr dflt)).

(** [_row_to_movie]; the entries of the returned dict are evaluated in the
    order they are written. *)
Definition _row_to_movie (row : gmap string scalar) (only_released : bool)
  (min_votes : Z) : res (option Fields) :=
  status ← text row "status" "";
  if only_released && negb (String.eqb (lower status) "released") then Ok None
  else
    vote_count ← _safe_int (get row "vote_count" (SInt 0));
    if (0 <? min_votes) && (default 0 vote_count <? min_votes) then Ok None
    else
      t ← text row "title" "";
      title ← (if negb (String.eqb t "") then Ok t else text row "original_title" "");
      if String.eqb title "" then Ok None
      else
        year ← _parse_year (get row "release_date" (SStr ""));
        match year with
        | None => Ok None
        | Some year =>
        if year =? 0 then Ok None
        else
          id ← _safe_int (get row "id" (SStr ""));
          match id with
          | None => Ok None
          | Some tmdb_id =>
          if tmdb_id =? 0 then Ok None
          else
            crew ← text row "crew" "[]";
            crew_info ← _extract_crew crew;
            p ← text row "poster_path" "";
            let poster_path :=
              if negb (String.eqb p "") && negb (startswith p "http")
              then (poster_base ++ p)%string else p in
            revenue ← _safe_int (get row "revenue" (SInt 0));
            let box_office :=
              match revenue with
              | Some r => if negb (r =? 0) && (0 <? r)
                          then ("$" ++ format_commas r)%string else ""
              | None => ""
              end in
            imdb_rating ← _safe_float (get row "imdb_rating" (SStr ""));
            imdb_votes_raw ← _safe_int (get row "imdb_vote_count" (SInt 0));
            let imdb_votes :=
              match imdb_votes_raw with
              | Some v => if negb (v =? 0) then format_commas v else ""
              | None => ""
              end in
            genres_str ← text row "genres" "[]";
            genres ← _extract_genres genres_str;
            overview ← text row "overview" "";
            pop ← _safe_float (get row "popularity" (SStr ""));
            lang_str ← text row "spoken_languages" "[]";
            language ← _extract_languages lang_str;
            imdb_id ← text row "imdb_id" "";
            cast_str ← text row "cast" "[]";
            actors ← _extract_cast cast_str 10;
            released ← text row "release_date" "";
            countries_str ← text row "production_countries" "[]";
            country ← _extract_countries countries_str;
            prod_str ← text row "production_companies" "[]";
            production ← _extract_production_companies prod_str;
            runtime ← _safe_int (get row "runtime" (SStr ""));
            Ok (Some
              {| tmdb_id := tmdb_id;
                 title := VStr (slice_to 255 title);
                 year := year;
                 genres := slice_to 500 genres;
                 overview := VStr (slice_to 5000 overview);
                 poster_path := slice_to 500 poster_path;
                 popularity :=
                   match pop with
                   | Some f => if truthy (VFloat f) then f else zero
                   | None => zero
                   end;
                 language := VStr (slice_to 200 language);
                 imdb_id := slice_to 50 imdb_id;
                 imdb_rating := imdb_rating;
                 imdb_votes := slice_to 100 imdb_votes;
                 director := slice_to 500 (fst crew_info);
                 writer := slice_to 500 (snd crew_info);
                 actors := slice_to 1000 actors;
                 released := VStr (slice_to 100 released);
                 country := slice_to 200 country;
                 production := slice_to 500 production;
                 runtime := runtime;
                 box_office := slice_to 100 box_office;
                 metascore := None;
                 rotten_tomatoes := "";
                 rated := "";
                 awards := "" |})
          end
        end.

(** [_stream_with_csv] on the rows the reader delivers: a row is yielded
    when [_row_to_movie] returns a dict.  [_stream_with_pandas] runs the
    same loop on the rows of the pandas reader. *)
Definition _stream_with_csv (rows : list (gmap string scalar))
  (only_released : bool) (min_votes : Z) : stream Fields :=
  generate (λ row, _row_to_movie row only_released min_votes) rows.

End Parser.

(** ** Notions the statements about the list columns use *)

(** The item of a decoded list that carries the name [n]. *)
Definition named (item : pyval) (n : string) : Prop :=
  named_item item = Some (VStr n).

(** The item of a decoded crew list that is a dict with the texts [job]
    and [name], written as the pair of the two. *)
Definition crew_member (item : pyval) (c : string * string) : Prop :=
  ∃ d, item = VDict d
       ∧ lookup_str "job" d = Some (VStr (fst c))
       ∧ lookup_str "name" d = Some (VStr (snd c)).

Definition is_director (c : string * string) : bool :=
  String.eqb (lower (fst c)) "director" && negb (String.eqb (snd c) "").

Definition is_writer (c : string * string) : bool :=
  str_in (lower (fst c)) ["writer"; "screenplay"; "story"]
  && negb (String.eqb (snd c) "").

End KaggleTMDBParser.

(** The functions of [tmdb_parser.py] outside the two classes. *)
Module Formats.
Import Py.

(** [parse_tmdb_file] on what the parser streams: the entries that convert
    to fields. *)
Fixpoint parse_tmdb_file (movies : stream pyval) : stream Fields :=
  match movies with
  | [] => []
  | Raise e :: _ => [Raise e]
  | Ok movie_data :: rest =>
      match TMDBParser.movie_to_django_fields movie_data with
      | Ok (Some fields) => Ok fields :: parse_tmdb_file rest
      | Ok None => parse_tmdb_file rest
      | Raise e => [Raise e]
      end
  end.

End Formats.

(* ===================================================================== *)
(** * movies/models.py: what the Movie model does with the fields *)
(* ===================================================================== *)

Module Models.
Import Py.

(** The body the list getters share:
    [[x.strip() for x in text.split(',') if x.strip()]], and the empty list
    for an empty text. *)
Definition comma_list (text : string) : list string :=
  if String.eqb text "" then []
  else List.filter (λ x, negb (String.eqb x "")) (map strip (split_on "," text)).

Definition get_directors_list (m : Fields) : list string := comma_list (director m).
Definition get_actors_list (m : Fields) : list string := comma_list (actors m).
Definition get_countries_list (m : Fields) : list string := comma_list (country m).

End Models.

(* ===================================================================== *)
(** * movies/management/commands/import_movies.py *)
(* ===================================================================== *)

Local Open Scope list_scope.

Module ImportMovies.
Import Py.

(** A [Movie] instance is built from the fields dict and carries it. *)
Definition Movie := Fields.

(** The storage collaborator (the Django ORM): the query that seeds the
    deduplication set, [Movie.objects.bulk_create(batch,
    ignore_conflicts=True)], which is atomic, and [movie.save()].  [None]
    stands for a raised exception, which leaves the store unchanged. *)
Class Storage (DB : Type) := {
  stored_ids : DB → gset Z;
  bulk_create : DB → list Movie → option DB;
  save : DB → Movie → option DB
}.

(** The arguments of [bulk_import_tmdb] the loop reads. *)
Record Config := {
  limit : Z;
  batch_size : Z;
  skip_adult : bool;
  min_popularity : float
}.

(** An entry of [movie_iter]: the JSON parser yields raw objects
    ([is_csv] false), the CSV parser yields Django-ready fields ([is_csv]
    true). *)
Inductive movie_data :=
| Raw (m : pyval)
| Ready (f : Fields).

(** What the loop body knows about an entry when it reaches the duplicate
    check. *)
Inductive prepared :=
| Adult
| Unpopular
| Invalid
| Valid (f : Fields).

(** The first half of the loop body: the filters of the JSON format and
    the conversion to fields. *)
Definition prepare (cfg : Config) (md : movie_data) : res prepared :=
  match md with
  | Raw m =>
      adult ← (if skip_adult cfg then py_get m "adult" (VBool false)
               else Ok (VBool false));
      if skip_adult cfg && truthy adult then Ok Adult
      else
        pop ← py_get m "popularity" (VFloat zero);
        popularity ← try_except (py_float pop) [ValueError; TypeError] (Ok zero);
        if float_ltb popularity (min_popularity cfg) then Ok Unpopular
        else
          fields ← TMDBParser.movie_to_django_fields m;
          Ok (match fields with Some f => Valid f | None => Invalid end)
  | Ready f => Ok (Valid f)
  end.

Section Supervisor.
Context {DB : Type} `{Storage DB}.

(** The local variables of [bulk_import_tmdb] and the store.  [commits]
    is not a variable of the source: it records the batches handed to
    [_bulk_create_batch], oldest first. *)
Record State := {
  imported : Z;
  skipped_existing : Z;
  skipped_invalid : Z;
  skipped_adult : Z;
  skipped_unpopular : Z;
  processed : Z;
  batch : list Movie;
  existing_ids : gset Z;
  db : DB;
  commits : list (list Movie)
}.

(** The fallback of [_bulk_create_batch]: each record is saved on its
    own, and one whose save raises is passed over. *)
Definition save_each (d : DB) (batch : list Movie) : DB :=
  fold_left (λ d movie, match save d movie with Some d' => d' | None => d end)
    batch d.

Definition _bulk_create_batch (d : DB) (batch : list Movie) : DB :=
  match bulk_create d batch with
  | Some d' => d'
  | None => save_each d batch
  end.

(** [_bulk_create_batch(batch, command); imported += len(batch)] *)
Definition flush (st : State) : State :=
  {| imported := imported st + Z.of_nat (length (batch st));
     skipped_existing := skipped_existing st;
     skipped_invalid := skipped_invalid st;
     skipped_adult := skipped_adult st;
     skipped_unpopular := skipped_unpopular st;
     processed := processed st;
     batch := batch st;
     existing_ids := existing_ids st;
     db := _bulk_create_batch (db st) (batch st);
     commits := (commits st ++ [batch st])%list |}.

Definition set_batch (b : list Movie) (st : State) : State :=
  {| imported := imported st;
     skipped_existing := skipped_existing st;
     skipped_invalid := skipped_invalid st;
     skipped_adult := skipped_adult st;
     skipped_unpopular := skipped_unpopular st;
     processed := processed st;
     batch := b;
     existing_ids := existing_ids st;
     db := db st;
     commits := commits st |}.

(** [if batch: _bulk_create_batch(batch, command); imported += len(batch)] *)
Definition flush_rest (st : State) : State :=
  match batch st with
  | [] => st
  | _ => flush st
  end.

Definition count_processed (st : State) : State :=
  {| imported := imported st;
     skipped_existing := skipped_existing st;
     skipped_invalid := skipped_invalid st;
     skipped_adult := skipped_adult st;
     skipped_unpopular := skipped_unpopular st;
     processed := processed st + 1;
     batch := batch st;
     existing_ids := existing_ids st;
     db := db st;
     commits := commits st |}.

Definition count_adult (st : State) : State :=
  {| imported := imported st;
     skipped_existing := skipped_existing st;
     skipped_invalid := skipped_invalid st;
     skipped_adult := skipped_adult st + 1;
     skipped_unpopular := skipped_unpopular st;
     processed := processed st;
     batch := batch st;
     existing_ids := existing_ids st;
     db := db st;
     commits := commits st |}.

Definition count_unpopular (st : State) : State :=
  {| imported := imported st;
     skipped_existing := skipped_existing st;
     skipped_invalid := skipped_invalid st;
     skipped_adult := skipped_adult st;
     skipped_unpopular := skipped_unpopular st + 1;
     processed := processed st;
     batch := batch st;
     existing_ids := existing_ids st;
     db := db st;
     commits := commits st |}.

Definition count_invalid (st : State) : State :=
  {| imported := imported st;
     skipped_existing := skipped_existing st;
     skipped_invalid := skipped_invalid st + 1;
     skipped_adult := skipped_adult st;
     skipped_unpopular := skipped_unpopular st;
     processed := processed st;
     batch := batch st;
     existing_ids := existing_ids st;
     db := db st;
     commits := commits st |}.

Definition count_existing (st : State) : State :=
  {| imported := imported st;
     skipped_existing := skipped_existing st + 1;
     skipped_invalid := skipped_invalid st;
     skipped_adult := skipped_adult st;
     skipped_unpopular := skipped_unpopular st;
     processed := processed st;
     batch := batch st;
     existing_ids := existing_ids st;
     db := db st;
     commits := commits st |}.

(** [existing_ids.add(tmdb_id)], then the new [Movie] is appended to
    [batch]. *)
Definition accept (f : Fields) (st : State) : State :=
  {| imported := imported st;
     skipped_existing := skipped_existing st;
     skipped_invalid := skipped_invalid st;
     skipped_adult := skipped_adult st;
     skipped_unpopular := skipped_unpopular st;
     processed := processed st;
     batch := (batch st ++ [f])%list;
     existing_ids := {[tmdb_id f]} ∪ existing_ids st;
     db := db st;
     commits := commits st |}.

(** The second half of the loop body, from [if not fields] on. *)
Definition dispatch (cfg : Config) (st : State) (p : prepared) : State :=
  match p with
  | Adult => count_adult st
  | Unpopular => count_unpopular st
  | Invalid => count_invalid st
  | Valid f =>
      if bool_decide (tmdb_id f ∈ existing_ids st) then count_existing st
      else
        let st := accept f st in
        if batch_size cfg <=? Z.of_nat (length (batch st))
        then set_batch [] (flush st)
        else st
  end.

(** How [bulk_import_tmdb] ends: it returns its counters, or an
    exception other than [KeyboardInterrupt] leaves it. *)
Inductive outcome :=
| Done (st : State)
| Aborted (e : exn) (st : State).

Definition final (o : outcome) : State :=
  match o with Done st | Aborted _ st => st end.

(** The [except KeyboardInterrupt] clause, and the other exceptions, which
    nothing catches. *)
Definition on_exception (e : exn) (st : State) : outcome :=
  if exn_eqb e KeyboardInterrupt then Done (flush_rest st) else Aborted e st.

(** The [for] loop with the final batch after it.  An exception enters
    where the loop pulls the next entry or prepares it; [KeyboardInterrupt]
    is taken at a pull, that is, while the generator is at work. *)
Fixpoint loop (cfg : Config) (movie_iter : stream movie_data) (st : State)
  : outcome :=
  match movie_iter with
  | [] => Done (flush_rest st)
  | Raise e :: _ => on_exception e st
  | Ok md :: rest =>
      if limit cfg <=? imported st then Done (flush_rest st)
      else
        let st := count_processed st in
        match prepare cfg md with
        | Ok p => loop cfg rest (dispatch cfg st p)
        | Raise e => on_exception e st
        end
  end.

Definition start (d : DB) : State :=
  {| imported := 0;
     skipped_existing := 0;
     skipped_invalid := 0;
     skipped_adult := 0;
     skipped_unpopular := 0;
     processed := 0;
     batch := [];
     existing_ids := stored_ids d;
     db := d;
     commits := [] |}.

Definition bulk_import_tmdb (cfg : Config) (d : DB) (movie_iter : stream movie_data)
  : outcome :=
  loop cfg movie_iter (start d).

(** The number of records accepted so far: committed or pending. *)
Definition accepted_count (st : State) : Z :=
  imported st + Z.of_nat (length (batch st)).

(** The records accepted so far, oldest first. *)
Definition accepted_log (st : State) : list Movie :=
  concat (commits st) ++ batch st.

(** What the loop keeps about the limit: the pending batch is shorter than
    a full batch, and [imported] is below the limit unless a flush has just
    emptied the batch. *)
Definition near_limit (cfg : Config) (st : State) : Prop :=
  Z.of_nat (length (batch st)) < Z.max 1 (batch_size cfg)
  ∧ (imported st < limit cfg
     ∨ (batch st = [] ∧ imported st < limit cfg + Z.max 1 (batch_size cfg))).

(** What the loop keeps when the batch size divides the limit: [imported]
    is a multiple of the batch size, not above the limit, and the batch is
    empty once the limit is reached. *)
Definition in_step (cfg : Config) (st : State) : Prop :=
  (batch_size cfg | imported st)
  ∧ Z.of_nat (length (batch st)) < batch_size cfg
  ∧ imported st ≤ limit cfg
  ∧ (imported st < limit cfg ∨ batch st = []).

End Supervisor.

Arguments State : clear implicits.
Arguments outcome : clear implicits.

(** [movie_iter] for the two formats. *)
Definition raw_stream (s : stream pyval) : stream movie_data :=
  map (λ r, match r with Ok m => Ok (Raw m) | Raise e => Raise e end) s.

Definition ready_stream (s : stream Fields) : stream movie_data :=
  map (λ r, match r with Ok f => Ok (Ready f) | Raise e => Raise e end) s.

(** A store for evaluating the import: the rows of the movie table in
    insertion order, with the unique index on [tmdb_id] and the NOT NULL
    constraint on [popularity].  The backend holds 64-bit integers, so
    binding a record with an integer field outside that range raises.  A
    NaN is bound as NULL: [INSERT OR IGNORE] passes over such a row in
    silence, a plain [INSERT] raises.  The statements about the import hold
    for every store; this one serves to evaluate examples. *)
Definition fits64 (z : Z) : bool := (- 2 ^ 63 <=? z) && (z <? 2 ^ 63).

Definition is_nan (f : float) : bool :=
  match f with S754_nan => true | _ => false end.

Definition storable (m : Movie) : bool :=
  fits64 (tmdb_id m) && fits64 (year m)
  && match runtime m with Some r => fits64 r | None => true end.

Definition table_ids (t : list Movie) : gset Z := list_to_set (map tmdb_id t).

(** [INSERT OR IGNORE] of one row. *)
Definition insert_ignore (t : list Movie) (m : Movie) : list Movie :=
  if bool_decide (tmdb_id m ∈ table_ids t) || is_nan (popularity m)
  then t else (t ++ [m])%list.

#[export] Instance table : Storage (list Movie) := {|
  stored_ids := table_ids;
  bulk_create t batch :=
    if forallb storable batch then Some (fold_left insert_ignore batch t) else None;
  save t m :=
    if storable m && negb (is_nan (popularity m))
       && negb (bool_decide (tmdb_id m ∈ table_ids t))
    then Some (t ++ [m])%list else None
|}.

(** ** Notions the statements use *)

(** The entries of a stream as the loop body sees them at the duplicate
    check, when every pull yields and no conversion raises. *)
Fixpoint prepared_all (cfg : Config) (it : stream movie_data)
  : option (list prepared) :=
  match it with
  | [] => Some []
  | Ok md :: rest =>
      match prepare cfg md with
      | Ok p => cons p <$> prepared_all cfg rest
      | Raise _ => None
      end
  | Raise _ :: _ => None
  end.

Definition valids (ps : list prepared) : list Fields :=
  omap (λ p, match p with Valid f => Some f | _ => None end) ps.

(** The records a deduplication set that starts as [known] accepts. *)
Fixpoint fresh (known : gset Z) (fs : list Fields) : list Fields :=
  match fs with
  | [] => []
  | f :: rest =>
      if bool_decide (tmdb_id f ∈ known) then fresh known rest
      else f :: fresh ({[tmdb_id f]} ∪ known) rest
  end.


Definition ids_of (fs : list Fields) : list Z := map tmdb_id fs.

(** The deduplication set [known] against the records accepted so far: no
    id was accepted twice, none was in the [seeded] set, and the set holds
    the seeded ids and the accepted ones. *)
Definition log_ok (seeded : gset Z) (recs : list Movie) (known : gset Z) : Prop :=
  NoDup (ids_of recs)
  ∧ known = seeded ∪ list_to_set (ids_of recs)
  ∧ ∀ i, i ∈ ids_of recs → i ∉ seeded.

End ImportMovies.

Module Samples.
Import Py ImportMovies.

(** A normalised record with the given id. *)
Definition movie (id : Z) : Fields :=
  {| tmdb_id := id; title := VStr "T"; year := 1999; genres := "";
     overview := VStr ""; poster_path := ""; popularity := zero;
     language := VStr ""; imdb_id := ""; imdb_rating := None;
     imdb_votes := ""; metascore := None; rotten_tomatoes := "";
     director := ""; writer := ""; actors := ""; rated := "";
     released := VStr "1999-01-01"; country := ""; awards := "";
     box_office := ""; production := ""; runtime := None |}.

(** A stream of ready records with the given ids. *)
Definition ready (ids : list Z) : stream movie_data :=
  map (λ id, Ok (Ready (movie id))) ids.

(** A record the table refuses: its id is 2^63. *)
Definition too_large : Fields := movie (2 ^ 63).

Definition config (limit batch_size : Z) : Config :=
  {| limit := limit; batch_size := batch_size; skip_adult := true;
     min_popularity := zero |}.

(** JSON text written with single quotes in place of double quotes. *)
Definition json_text (s : string) : string := replace_char squote dquote s.

(** A line of a JSONL file whose object has a title but no [id] key. *)
Definition orphan_line : string :=
  json_text "{'original_title': 'X', 'release_date': '1999-01-01'}".

Definition orphan : pyval :=
  VDict [(VStr "original_title", VStr "X");
         (VStr "release_date", VStr "1999-01-01")].

Definition seven_line : string :=
  json_text "{'id': 7, 'title': 'Seven', 'release_date': '1995-09-22'}".


(** A row of the tabular file, as the csv reader delivers it. *)
Definition heat : gmap string scalar :=
  list_to_map
    [ ("id", SStr "949"); ("title", SStr "Heat"); ("status", SStr "Released");
      ("release_date", SStr "1995-12-15"); ("vote_count", SStr "150");
      ("genres", SStr "[{'id': 28, 'name': 'Action'}, {'id': 80, 'name': 'Crime'}]");
      ("overview", SStr "Obsessive master thief Neil McCauley leads a crew.");
      ("runtime", SStr "170"); ("popularity", SStr "48.9") ].

(** The object of [seven_line] and the records the two normalisers make of
    it and of [heat]. *)
Definition seven : pyval :=
  VDict [(VStr "id", VInt 7); (VStr "title", VStr "Seven");
         (VStr "release_date", VStr "1995-09-22")].

Definition seven_fields : Fields :=
  Eval vm_compute in
    match TMDBParser.movie_to_django_fields seven with
    | Ok (Some f) => f
    | _ => movie 0
    end.

Definition heat_fields : Fields :=
  Eval vm_compute in
    match KaggleTMDBParser._row_to_movie (H := Ref.decoders) heat true 100 with
    | Ok (Some f) => f
    | _ => movie 0
    end.

(** The row [heat] with a cast column. *)
Definition heat_with_cast : gmap string scalar :=
  <["cast" := SStr "[{'name': 'Al Pacino'}, {'name': 'Robert De Niro'}]"]> heat.

(** A value of an embedded column that neither decoder accepts: the JSON
    decoder wants a string key, the literal decoder cannot hash a list. *)
Definition list_keyed : string := "{[1]: 2}".

End Samples.

(* ===================================================================== *)
(** * Properties

    The supervisor first: the deduplication counters and the log of
    accepted records, resuming, the record limit against the batch size,
    the committer, interruption.  Then the two parsers: validation of
    decoded objects, decoding of embedded columns, the identifier of a
    row, truncation. *)
(* ===================================================================== *)

Import Py ImportMovies Samples.

Lemma bind_Ok {A B : Type} (m : res A) (k : A → res B) (b : B) :
  m ≫= k = Ok b → ∃ a, m = Ok a ∧ k a = Ok b.
Proof. destruct m as [a|e]; simpl; [eauto | done]. Qed.


Lemma py_str_value (a : scalar) (s : string) :
  py_str a = Ok s → s = str_of_scalar a.
Proof.
  destruct a as [|b|z|f|t]; simpl; try (by intros [= <-]).
  destruct (too_long z); [discriminate | by intros [= <-]].
Qed.

Lemma text_gets (row : gmap string scalar) (key dflt s : string) :
  KaggleTMDBParser.text row key dflt = Ok s →
  s = KaggleTMDBParser.gets row key dflt.
Proof. apply py_str_value. Qed.

(** [returned] with the guard or the scrutinee remembered. *)
Ltac passed H :=
  first
    [ apply bind_Ok in H as (? & ? & H)
    | match type of H with
      | (if ?c then Ok None else _) = Ok (Some _) =>
          destruct c eqn:?; [discriminate H|]
      | match ?x with Some _ => _ | None => Ok None end = Ok (Some _) =>
          destruct x eqn:?; [|discriminate H]
      end ].

Section LoopFacts.
Context {DB : Type} `{Storage DB}.
Implicit Types (st : State DB) (cfg : Config) (f : Fields) (p : prepared).

Lemma flush_rest_imported st :
  imported (flush_rest st) = accepted_count st.
Proof.
  unfold flush_rest, accepted_count.
  destruct (batch st) eqn:E; simpl; [lia | rewrite E; reflexivity].
Qed.

Lemma flush_rest_counters st :
  skipped_existing (flush_rest st) = skipped_existing st
  ∧ processed (flush_rest st) = processed st
  ∧ existing_ids (flush_rest st) = existing_ids st.
Proof. unfold flush_rest. destruct (batch st); done. Qed.

Lemma dispatch_accepted cfg st p :
  accepted_count (dispatch cfg st p)
  = accepted_count st
    + match p with
      | Valid f => if bool_decide (tmdb_id f ∈ existing_ids st) then 0 else 1
      | _ => 0
      end.
Proof.
  unfold accepted_count.
  destruct p as [| | |f]; simpl; try lia.
  case_bool_decide; simpl; [lia|].
  destruct (batch_size cfg <=? _); simpl; rewrite ?length_app; simpl; lia.
Qed.

Lemma dispatch_existing_ids cfg st p :
  existing_ids (dispatch cfg st p)
  = match p with
    | Valid f => {[tmdb_id f]} ∪ existing_ids st
    | _ => existing_ids st
    end.
Proof.
  destruct p as [| | |f]; simpl; try done.
  case_bool_decide; simpl.
  - set_solver.
  - destruct (batch_size cfg <=? _); done.
Qed.

Lemma dispatch_skipped_existing cfg st p :
  skipped_existing (dispatch cfg st p)
  = skipped_existing st
    + match p with
      | Valid f => if bool_decide (tmdb_id f ∈ existing_ids st) then 1 else 0
      | _ => 0
      end.
Proof.
  destruct p as [| | |f]; simpl; try lia.
  case_bool_decide; simpl; [lia|].
  destruct (batch_size cfg <=? _); simpl; lia.
Qed.

Lemma dispatch_processed cfg st p :
  processed (dispatch cfg st p) = processed st.
Proof.
  destruct p as [| | |f]; simpl; try done.
  case_bool_decide; simpl; [done|].
  destruct (batch_size cfg <=? _); done.
Qed.

Lemma fresh_length_le known fs :
  (length (fresh known fs) ≤ length fs)%nat.
Proof.
  revert known. induction fs as [|f fs IH]; intros known; simpl; [lia|].
  case_bool_decide; simpl; [specialize (IH known) | specialize (IH ({[tmdb_id f]} ∪ known))]; lia.
Qed.

Lemma union_known (i : Z) (known : gset Z) : i ∈ known → {[i]} ∪ known = known.
Proof. set_solver. Qed.

(** One entry more: what the loop body adds to the accepted count is what
    [fresh] says. *)
Lemma dispatch_fresh cfg st p ps :
  accepted_count (dispatch cfg st p)
  + Z.of_nat (length (fresh (existing_ids (dispatch cfg st p)) (valids ps)))
  = accepted_count st
    + Z.of_nat (length (fresh (existing_ids st) (valids (p :: ps)))).
Proof.
  rewrite dispatch_accepted, dispatch_existing_ids.
  destruct p as [| | |f]; simpl; try lia.
  case_bool_decide as Hin; simpl.
  - rewrite (union_known _ _ Hin). lia.
  - lia.
Qed.

Lemma dispatch_repeats cfg st p ps :
  skipped_existing (dispatch cfg st p)
  + (Z.of_nat (length (valids ps))
     - Z.of_nat (length (fresh (existing_ids (dispatch cfg st p)) (valids ps))))
  = skipped_existing st
    + (Z.of_nat (length (valids (p :: ps)))
       - Z.of_nat (length (fresh (existing_ids st) (valids (p :: ps))))).
Proof.
  rewrite dispatch_skipped_existing, dispatch_existing_ids.
  destruct p as [| | |f]; simpl; try lia.
  case_bool_decide as Hin; simpl.
  - rewrite (union_known _ _ Hin). lia.
  - lia.
Qed.

Lemma prepared_all_cons cfg md rest ps :
  prepared_all cfg (Ok md :: rest) = Some ps →
  ∃ p ps', prepare cfg md = Ok p ∧ prepared_all cfg rest = Some ps'
           ∧ ps = p :: ps'.
Proof.
  simpl. destruct (prepare cfg md) as [p|e]; [|done].
  destruct (prepared_all cfg rest) as [ps'|]; simpl; [|done].
  intros [= <-]. eauto.
Qed.

(** The loop on a stream whose accepted records fit under the limit: it
    ends normally, every accepted record is counted, and as long as the
    limit is not reached every repeated id is counted too. *)
Lemma loop_within_limit cfg it : ∀ ps st,
  prepared_all cfg it = Some ps →
  accepted_count st
  + Z.of_nat (length (fresh (existing_ids st) (valids ps))) ≤ limit cfg →
  ∃ st', loop cfg it st = Done st'
    ∧ imported st'
      = accepted_count st
        + Z.of_nat (length (fresh (existing_ids st) (valids ps)))
    ∧ skipped_existing st ≤ skipped_existing st'
    ∧ skipped_existing st'
      ≤ skipped_existing st
        + (Z.of_nat (length (valids ps))
           - Z.of_nat (length (fresh (existing_ids st) (valids ps))))
    ∧ (accepted_count st
       + Z.of_nat (length (fresh (existing_ids st) (valids ps))) < limit cfg →
       skipped_existing st'
       = skipped_existing st
         + (Z.of_nat (length (valids ps))
            - Z.of_nat (length (fresh (existing_ids st) (valids ps))))
       ∧ processed st' = processed st + Z.of_nat (length it)).
Proof.
  induction it as [|[md|e] rest IH]; intros ps st Hps Hlim.
  - injection Hps as <-. simpl in *. exists (flush_rest st).
    destruct (flush_rest_counters st) as (Hs & Hp & _).
    rewrite flush_rest_imported, Hs, Hp. repeat split; lia.
  - apply prepared_all_cons in Hps as (p & ps' & Hp & Hps' & ->).
    pose proof (fresh_length_le (existing_ids st) (valids (p :: ps'))) as Hle.
    assert (0 ≤ Z.of_nat (length (batch st))) as Hb by lia.
    simpl loop. destruct (limit cfg <=? imported st) eqn:Hbrk.
    + apply Z.leb_le in Hbrk. unfold accepted_count in *.
      exists (flush_rest st).
      destruct (flush_rest_counters st) as (Hs & Hpr & _).
      rewrite flush_rest_imported, Hs. unfold accepted_count.
      repeat split; lia.
    + apply Z.leb_gt in Hbrk. rewrite Hp.
      set (st1 := count_processed st).
      pose proof (dispatch_fresh cfg st1 p ps') as Hf.
      pose proof (dispatch_repeats cfg st1 p ps') as Hr.
      pose proof (dispatch_skipped_existing cfg st1 p) as Hsk.
      pose proof (dispatch_processed cfg st1 p) as Hpr.
      change (accepted_count st1) with (accepted_count st) in Hf.
      change (existing_ids st1) with (existing_ids st) in Hf, Hr, Hsk.
      change (skipped_existing st1) with (skipped_existing st) in Hr, Hsk.
      change (processed st1) with (processed st + 1) in Hpr.
      destruct (IH ps' (dispatch cfg st1 p) Hps') as (st' & Hrun & Hi & Hlo & Hhi & Hstrict);
        [lia|].
      exists st'. split; [exact Hrun|].
      assert (0 ≤ skipped_existing (dispatch cfg st1 p) - skipped_existing st) as Hmono.
      { rewrite Hsk. destruct p; try case_bool_decide; lia. }
      split; [lia|]. split; [lia|]. split; [lia|].
      intros Hlt. destruct Hstrict as [? ?]; [lia|].
      rewrite length_cons. lia.
  - done.
Qed.



Lemma log_ok_snoc seeded recs known f :
  log_ok seeded recs known → tmdb_id f ∉ known →
  log_ok seeded (recs ++ [f]) ({[tmdb_id f]} ∪ known).
Proof.
  intros (Hnd & -> & Hdis) Hout. unfold log_ok, ids_of in *.
  rewrite map_app. simpl. repeat split.
  - apply NoDup_app. repeat split; [done| |apply NoDup_singleton].
    intros i Hi [->|[]%elem_of_nil]%elem_of_cons. set_solver.
  - rewrite list_to_set_app_L. set_solver.
  - intros i [Hi|[->|[]%elem_of_nil]%elem_of_cons]%elem_of_app; [by apply Hdis|].
    set_solver.
Qed.

Lemma dispatch_log cfg st p seeded :
  log_ok seeded (accepted_log st) (existing_ids st) →
  log_ok seeded (accepted_log (dispatch cfg st p))
    (existing_ids (dispatch cfg st p)).
Proof.
  intros Hok. destruct p as [| | |f]; simpl; try done.
  case_bool_decide as Hin; simpl; [done|].
  pose proof (log_ok_snoc _ _ _ f Hok Hin) as Hok'.
  destruct (batch_size cfg <=? _); simpl; unfold accepted_log in *; simpl.
  - rewrite concat_app. simpl. rewrite !app_nil_r.
    rewrite <- app_assoc in Hok'. exact Hok'.
  - rewrite <- app_assoc in Hok'. exact Hok'.
Qed.

Lemma flush_rest_log st :
  concat (commits (flush_rest st)) = accepted_log st.
Proof.
  unfold flush_rest, accepted_log. destruct (batch st) eqn:E; simpl.
  - by rewrite app_nil_r.
  - rewrite concat_app, E. simpl. by rewrite app_nil_r.
Qed.

(** Whatever the stream, a run that returns has accepted no id twice. *)
Lemma loop_log cfg seeded it : ∀ st st',
  log_ok seeded (accepted_log st) (existing_ids st) →
  loop cfg it st = Done st' →
  log_ok seeded (concat (commits st')) (existing_ids st').
Proof.
  assert (∀ st st' e, log_ok seeded (accepted_log st) (existing_ids st) →
            on_exception e st = Done st' →
            log_ok seeded (concat (commits st')) (existing_ids st')) as Hexc.
  { intros st st' e Hok. unfold on_exception.
    destruct (exn_eqb e KeyboardInterrupt); [|done].
    intros [= <-]. rewrite flush_rest_log.
    by destruct (flush_rest_counters st) as (_ & _ & ->). }
  induction it as [|[md|e] rest IH]; intros st st' Hok; simpl.
  - intros [= <-]. rewrite flush_rest_log.
    by destruct (flush_rest_counters st) as (_ & _ & ->).
  - destruct (limit cfg <=? imported st).
    + intros [= <-]. rewrite flush_rest_log.
      by destruct (flush_rest_counters st) as (_ & _ & ->).
    + destruct (prepare cfg md) as [p|e].
      * apply IH. by apply dispatch_log.
      * by apply Hexc.
  - by apply Hexc.
Qed.

Lemma start_log (d : DB) :
  log_ok (stored_ids d) (accepted_log (start d)) (existing_ids (start d)).
Proof.
  unfold log_ok, accepted_log, ids_of. simpl. repeat split.
  - apply NoDup_nil_2.
  - set_solver.
  - set_solver.
Qed.

End LoopFacts.






Section Resume.
Context {DB : Type} `{Storage DB}.
Implicit Types (st : State DB) (cfg : Config).

Lemma prepare_filters cfg cfg' md :
  skip_adult cfg' = skip_adult cfg →
  min_popularity cfg' = min_popularity cfg →
  prepare cfg' md = prepare cfg md.
Proof. intros Ha Hp. unfold prepare. destruct md; by rewrite ?Ha, ?Hp. Qed.

Lemma prepared_all_filters cfg cfg' it :
  skip_adult cfg' = skip_adult cfg →
  min_popularity cfg' = min_popularity cfg →
  prepared_all cfg' it = prepared_all cfg it.
Proof.
  intros Ha Hp. induction it as [|[md|e] rest IH]; simpl; [done| |done].
  by rewrite (prepare_filters cfg cfg' md Ha Hp), IH.
Qed.

Lemma loop_done cfg it : ∀ ps st,
  prepared_all cfg it = Some ps → ∃ st', loop cfg it st = Done st'.
Proof.
  induction it as [|[md|e] rest IH]; intros ps st Hps; simpl.
  - eauto.
  - apply prepared_all_cons in Hps as (p & ps' & Hp & Hps' & ->).
    destruct (limit cfg <=? imported st); [eauto|].
    rewrite Hp. eauto.
  - done.
Qed.

Lemma on_exception_known e st :
  existing_ids (final (on_exception e st)) = existing_ids st.
Proof.
  unfold on_exception. destruct (exn_eqb e KeyboardInterrupt); simpl; [|done].
  by destruct (flush_rest_counters st) as (_ & _ & ->).
Qed.

(** The deduplication set only grows. *)
Lemma loop_known_mono cfg it : ∀ st,
  existing_ids st ⊆ existing_ids (final (loop cfg it st)).
Proof.
  induction it as [|[md|e] rest IH]; intros st; simpl.
  - by destruct (flush_rest_counters st) as (_ & _ & ->).
  - destruct (limit cfg <=? imported st); simpl.
    + by destruct (flush_rest_counters st) as (_ & _ & ->).
    + destruct (prepare cfg md) as [p|e].
      * etrans; [|apply IH]. rewrite dispatch_existing_ids.
        destruct p; set_solver.
      * by rewrite on_exception_known.
  - by rewrite on_exception_known.
Qed.

(** A run that examined every entry knows the id of every valid entry
    when it ends. *)
Lemma first_run_knows cfg it : ∀ ps st,
  prepared_all cfg it = Some ps →
  processed (final (loop cfg it st)) = processed st + Z.of_nat (length it) →
  ∀ f, f ∈ valids ps → tmdb_id f ∈ existing_ids (final (loop cfg it st)).
Proof.
  induction it as [|[md|e] rest IH]; intros ps st Hps Hall f Hf.
  - injection Hps as <-. by apply elem_of_nil in Hf.
  - apply prepared_all_cons in Hps as (p & ps' & Hp & Hps' & ->).
    simpl in Hall |- *. destruct (limit cfg <=? imported st).
    + simpl in Hall. destruct (flush_rest_counters st) as (_ & Hpr & _).
      rewrite Hpr in Hall. lia.
    + rewrite Hp in Hall |- *.
      set (st2 := dispatch cfg (count_processed st) p) in *.
      assert (processed st2 = processed st + 1) as Hpr
        by (unfold st2; by rewrite dispatch_processed).
      assert (f ∈ valids ps' ∨ p = Valid f) as [Hin| ->].
      { unfold valids in Hf |- *. destruct p; simpl in Hf; auto.
        apply elem_of_cons in Hf as [->|?]; auto. }
      * apply (IH ps' st2 Hps'); [lia | exact Hin].
      * apply (loop_known_mono cfg rest st2). unfold st2.
        rewrite dispatch_existing_ids. set_solver.
  - done.
Qed.

(** A run whose valid entries are all known imports nothing beyond what
    it had accepted. *)
Lemma known_run_imports_nothing cfg it : ∀ ps st,
  prepared_all cfg it = Some ps →
  (∀ f, f ∈ valids ps → tmdb_id f ∈ existing_ids st) →
  ∃ st', loop cfg it st = Done st' ∧ imported st' = accepted_count st.
Proof.
  induction it as [|[md|e] rest IH]; intros ps st Hps Hknown; simpl.
  - eexists. split; [done|]. apply flush_rest_imported.
  - apply prepared_all_cons in Hps as (p & ps' & Hp & Hps' & ->).
    destruct (limit cfg <=? imported st).
    + eexists. split; [done|]. apply flush_rest_imported.
    + rewrite Hp.
      set (st1 := count_processed st).
      assert (dispatch_keeps :
        accepted_count (dispatch cfg st1 p) = accepted_count st
        ∧ existing_ids (dispatch cfg st1 p) = existing_ids st).
      { rewrite dispatch_accepted, dispatch_existing_ids.
        change (accepted_count st1) with (accepted_count st).
        change (existing_ids st1) with (existing_ids st).
        destruct p as [| | |f]; try (split; [lia|done]).
        assert (tmdb_id f ∈ existing_ids st) as Hin
          by (apply Hknown; unfold valids; simpl; left).
        rewrite (bool_decide_eq_true_2 _ Hin), (union_known _ _ Hin).
        split; [lia|done]. }
      destruct dispatch_keeps as [Hacc Hids].
      destruct (IH ps' (dispatch cfg st1 p) Hps') as (st' & Hrun & Himp).
      { rewrite Hids. intros f Hf. apply Hknown.
        unfold valids in *. destruct p; simpl; auto. by right. }
      exists st'. split; [exact Hrun | lia].
  - done.
Qed.

End Resume.

(** C2 (amended).  Idempotence of resume: when the first run examined every
    entry of the stream (it was not cut short by the record limit or an
    interrupt, and no pull or conversion raised), a second run over the
    same stream with the same filters, seeded from a store that holds the
    ids the first store held and every id the first run accepted, imports
    nothing, whatever its limit and batch size. *)
Theorem resume_imports_nothing {DB : Type} `{Storage DB} (cfg cfg' : Config)
    (d d' : DB) (it : stream movie_data) (ps : list prepared) :
  prepared_all cfg it = Some ps →
  processed (final (bulk_import_tmdb cfg d it)) = Z.of_nat (length it) →
  skip_adult cfg' = skip_adult cfg →
  min_popularity cfg' = min_popularity cfg →
  stored_ids d ⊆ stored_ids d' →
  list_to_set (ids_of (concat (commits (final (bulk_import_tmdb cfg d it)))))
    ⊆ stored_ids d' →
  ∃ st', bulk_import_tmdb cfg' d' it = Done st' ∧ imported st' = 0.
Proof.
  intros Hps Hall Ha Hp Hold Hnew.
  destruct (loop_done cfg it ps (start d) Hps) as (st1 & Hrun1).
  unfold bulk_import_tmdb in *. rewrite Hrun1 in *. simpl in *.
  destruct (loop_log cfg (stored_ids d) it (start d) st1 (start_log d) Hrun1)
    as (_ & Hids & _).
  pose proof (first_run_knows cfg it ps (start d) Hps) as Hknows.
  rewrite Hrun1 in Hknows. simpl in Hknows. specialize (Hknows Hall).
  destruct (known_run_imports_nothing cfg' it ps (start d')) as (st' & Hrun & Himp).
  - by rewrite (prepared_all_filters cfg cfg' it Ha Hp).
  - intros f Hf. specialize (Hknows f Hf). simpl. set_solver.
  - exists st'. split; [exact Hrun|]. rewrite Himp. reflexivity.
Qed.

(** Witness for C2: ids 1, 2, 1, 3 against a store that holds id 2, then
    again against the store the first run left. *)
Lemma resume_imports_nothing_witness :
  ∃ st', bulk_import_tmdb (config 10 2)
           (db (final (bulk_import_tmdb (config 10 2) [movie 2] (ready [1; 2; 1; 3]))))
           (ready [1; 2; 1; 3]) = Done st'
         ∧ imported st' = 0.
Proof.
  apply (resume_imports_nothing (config 10 2) (config 10 2) [movie 2] _
           (ready [1; 2; 1; 3]) (map Valid (map movie [1; 2; 1; 3]))).
  - reflexivity.
  - reflexivity.
  - reflexivity.
  - reflexivity.
  - apply (bool_decide_unpack _). vm_compute. exact I.
  - apply (bool_decide_unpack _). vm_compute. exact I.
Defined.

(** C2 as stated fails when the record limit cut the first run short: with
    limit 1 the first run over ids 1, 2, 3 imports id 1 and stops; the
    second run, seeded from the store the first one left, imports id 2. *)
Lemma resume_after_limit_imports_more :
  let cfg := config 1 1 in
  let it := ready [1; 2; 3] in
  let first := final (bulk_import_tmdb cfg ([] : list Movie) it) in
  let second := final (bulk_import_tmdb cfg (db first) it) in
  ids_of (concat (commits first)) = [1]
  ∧ stored_ids (db first) = existing_ids first
  ∧ imported second = 1
  ∧ imported second ≠ 0
  ∧ ids_of (concat (commits second)) = [2].
Proof. vm_compute. repeat split; discriminate. Qed.

(* --------------------------------------------------------------------- *)
(** ** The limit and the batch size *)

Section Limit.
Context {DB : Type} `{Storage DB}.
Implicit Types (st : State DB) (cfg : Config).

(** As long as the accepted records fit under the limit, the imported
    count is their number, whatever the batch size. *)
Lemma imported_below_limit cfg (d : DB) it ps :
  prepared_all cfg it = Some ps →
  Z.of_nat (length (fresh (stored_ids d) (valids ps))) ≤ limit cfg →
  imported (final (bulk_import_tmdb cfg d it))
  = Z.of_nat (length (fresh (stored_ids d) (valids ps))).
Proof.
  intros Hps Hlim.
  destruct (loop_within_limit cfg it ps (start d) Hps) as (st & Hrun & Himp & _).
  { unfold accepted_count. simpl. lia. }
  unfold bulk_import_tmdb. rewrite Hrun. simpl.
  rewrite Himp. unfold accepted_count. simpl. lia.
Qed.

Lemma dispatch_near_limit cfg st p :
  near_limit cfg st → imported st < limit cfg →
  near_limit cfg (dispatch cfg st p).
Proof.
  intros [Hb _] Hlim. unfold near_limit.
  destruct p as [| | |f]; simpl; try (split; [done | by left]).
  case_bool_decide; simpl; [split; [done | by left]|].
  rewrite length_app. simpl.
  destruct (batch_size cfg <=? _) eqn:E; simpl.
  - unfold Movie in *. split; [lia|]. right. split; [reflexivity|].
    rewrite length_app. simpl. lia.
  - apply Z.leb_gt in E. unfold Movie in *. rewrite length_app. simpl.
    split; [lia | by left].
Qed.

Lemma flush_rest_near_limit cfg st :
  near_limit cfg st →
  imported (flush_rest st) < limit cfg + Z.max 1 (batch_size cfg).
Proof.
  intros [Hb Hor]. rewrite flush_rest_imported. unfold accepted_count.
  destruct Hor as [Hlt | [-> Hlt]]; simpl; lia.
Qed.

(** The imported count can pass the limit, by less than one batch. *)
Lemma imported_overshoot_bound cfg (d : DB) it :
  0 ≤ limit cfg →
  imported (final (bulk_import_tmdb cfg d it))
  < limit cfg + Z.max 1 (batch_size cfg).
Proof.
  intros Hlim. unfold bulk_import_tmdb.
  assert (near_limit cfg (start d)) as Hstart.
  { unfold near_limit. simpl. split; [lia|]. right. split; [done | lia]. }
  generalize dependent (start d).
  assert (∀ e st, near_limit cfg st →
            imported (final (on_exception e st))
            < limit cfg + Z.max 1 (batch_size cfg)) as Hexc.
  { intros e st Hst. unfold on_exception.
    destruct (exn_eqb e KeyboardInterrupt); simpl.
    - by apply flush_rest_near_limit.
    - destruct Hst as [_ [?|[_ ?]]]; lia. }
  induction it as [|[md|e] rest IH]; intros st Hst; simpl.
  - by apply flush_rest_near_limit.
  - destruct (limit cfg <=? imported st) eqn:E; simpl.
    + by apply flush_rest_near_limit.
    + apply Z.leb_gt in E. destruct (prepare cfg md) as [p|e].
      * apply IH. by apply dispatch_near_limit.
      * by apply Hexc.
  - by apply Hexc.
Qed.

End Limit.

(** C3, evaluated.  Batch-size invariance fails once the limit is reached:
    twelve new ids with limit 5 give imported = 5 with batch size 1,
    imported = 10 with batch size 10 and imported = 12 with batch size
    10000.  The limit test reads [imported], which only grows when a batch
    is flushed. *)
Theorem batch_size_changes_imported :
  let it := ready [1; 2; 3; 4; 5; 6; 7; 8; 9; 10; 11; 12] in
  let d : list Movie := [] in
  imported (final (bulk_import_tmdb (config 5 1) d it)) = 5
  ∧ imported (final (bulk_import_tmdb (config 5 10) d it)) = 10
  ∧ imported (final (bulk_import_tmdb (config 5 10000) d it)) = 12.
Proof. vm_compute. repeat split. Qed.

(** C4, evaluated.  The imported count exceeds the record limit: two new
    ids with limit 1 and batch size 2 end with imported = 2. *)
Theorem imported_exceeds_limit :
  let cfg := config 1 2 in
  let st := final (bulk_import_tmdb cfg ([] : list Movie) (ready [1; 2])) in
  limit cfg = 1 ∧ imported st = 2 ∧ ¬ imported st ≤ limit cfg
  ∧ ids_of (db st) = [1; 2].
Proof. vm_compute. repeat split. intros Hle. apply Hle. reflexivity. Qed.

(* --------------------------------------------------------------------- *)
(** ** The committer *)

Lemma table_ids_app (t new : list Movie) :
  table_ids (t ++ new) = table_ids t ∪ table_ids new.
Proof. unfold table_ids. rewrite map_app. apply list_to_set_app_L. Qed.

Lemma table_save_adds (t : list Movie) (m : Movie) (t' : list Movie) :
  save t m = Some t' → stored_ids t' = {[tmdb_id m]} ∪ stored_ids t.
Proof.
  change (save t m)
    with (if storable m && negb (is_nan (popularity m))
             && negb (bool_decide (tmdb_id m ∈ table_ids t))
          then Some (t ++ [m]) else None).
  destruct (_ && _); intros [= <-].
  change (stored_ids (t ++ [m])) with (table_ids (t ++ [m])).
  change (stored_ids t) with (table_ids t).
  rewrite table_ids_app. unfold table_ids at 2. simpl. set_solver.
Qed.

Section Committer.
Context {DB : Type} `{Storage DB}.
Implicit Types (st : State DB) (cfg : Config) (d : DB) (b : list Movie).

(** [imported] is the number of records handed to the committer. *)
Lemma flush_credits st :
  imported st = Z.of_nat (length (concat (commits st))) →
  imported (flush st) = Z.of_nat (length (concat (commits (flush st)))).
Proof.
  intros Hi. simpl. rewrite concat_app, length_app. simpl.
  rewrite app_nil_r. unfold Movie in *. lia.
Qed.

Lemma flush_rest_credits st :
  imported st = Z.of_nat (length (concat (commits st))) →
  imported (flush_rest st) = Z.of_nat (length (concat (commits (flush_rest st)))).
Proof.
  intros Hi. unfold flush_rest. destruct (batch st); [done|].
  by apply flush_credits.
Qed.

Lemma dispatch_credits cfg st p :
  imported st = Z.of_nat (length (concat (commits st))) →
  imported (dispatch cfg (count_processed st) p)
  = Z.of_nat (length (concat (commits (dispatch cfg (count_processed st) p)))).
Proof.
  intros Hi. destruct p as [| | |f]; simpl; try done.
  case_bool_decide; simpl; [done|].
  destruct (batch_size cfg <=? _); [|done].
  change (imported (set_batch [] ?s)) with (imported s).
  change (commits (set_batch [] ?s)) with (commits s).
  by apply flush_credits.
Qed.

Lemma loop_credits cfg it : ∀ st,
  imported st = Z.of_nat (length (concat (commits st))) →
  imported (final (loop cfg it st))
  = Z.of_nat (length (concat (commits (final (loop cfg it st))))).
Proof.
  induction it as [|[md|e] rest IH]; intros st Hi; simpl.
  - by apply flush_rest_credits.
  - destruct (limit cfg <=? imported st); [by apply flush_rest_credits|].
    destruct (prepare cfg md) as [p|e].
    + apply IH. by apply dispatch_credits.
    + unfold on_exception. destruct (exn_eqb e KeyboardInterrupt); simpl;
        [by apply flush_rest_credits | done].
  - unfold on_exception. destruct (exn_eqb e KeyboardInterrupt); simpl;
      [by apply flush_rest_credits | done].
Qed.

(** The fallback, for a store whose [save] adds the id of the record it
    writes and removes none. *)
Section Fallback.
Hypothesis save_adds : ∀ d m d',
  save d m = Some d' → stored_ids d' = {[tmdb_id m]} ∪ stored_ids d.

Lemma save_each_cons d m b :
  save_each d (m :: b)
  = save_each (match save d m with Some d' => d' | None => d end) b.
Proof. reflexivity. Qed.

Lemma save_each_app d b1 b2 :
  save_each d (b1 ++ b2) = save_each (save_each d b1) b2.
Proof. unfold save_each. by rewrite fold_left_app. Qed.

Lemma save_each_keeps b : ∀ d, stored_ids d ⊆ stored_ids (save_each d b).
Proof.
  induction b as [|m b IH]; intros d; [done|].
  rewrite save_each_cons. destruct (save d m) as [d'|] eqn:Hs; [|apply IH].
  etrans; [|apply IH]. rewrite (save_adds _ _ _ Hs). set_solver.
Qed.

Lemma save_each_within b : ∀ d,
  stored_ids (save_each d b) ⊆ stored_ids d ∪ list_to_set (ids_of b).
Proof.
  induction b as [|m b IH]; intros d; [set_solver|].
  rewrite save_each_cons. simpl.
  destruct (save d m) as [d'|] eqn:Hs.
  - etrans; [apply IH|]. rewrite (save_adds _ _ _ Hs). set_solver.
  - etrans; [apply IH|]. set_solver.
Qed.

Lemma save_each_commits d b1 m b2 d1 :
  save (save_each d b1) m = Some d1 →
  tmdb_id m ∈ stored_ids (save_each d (b1 ++ m :: b2)).
Proof.
  intros Hs. rewrite save_each_app, save_each_cons, Hs.
  apply save_each_keeps. rewrite (save_adds _ _ _ Hs). set_solver.
Qed.

End Fallback.
End Committer.

(** C5 (amended).  Batch commit contract.  The committer returns nothing:
    in a run that no interrupt cuts short, [imported] is the number of
    records handed to the committer, written or not.  When the batch-level
    commit returns, its result is the store.  When it raises, the records
    are saved one by one in order, and, for a store whose [save] adds the
    id of the record it writes and removes none: no id that was stored is
    lost, only ids of the batch are added, and every record whose own save
    returned has its id in the store at the end, whatever happened to the
    records before and after it. *)
Theorem committer_contract :
  (∀ (DB : Type) (S : Storage DB) (cfg : Config) (d : DB)
     (it : stream movie_data),
     Raise KeyboardInterrupt ∉ it →
     imported (final (bulk_import_tmdb cfg d it))
     = Z.of_nat (length (concat (commits (final (bulk_import_tmdb cfg d it))))))
  ∧ (∀ (DB : Type) (S : Storage DB) (d d' : DB) (b : list Movie),
       bulk_create d b = Some d' → _bulk_create_batch d b = d')
  ∧ (∀ (DB : Type) (S : Storage DB),
       (∀ (d : DB) (m : Movie) (d' : DB),
          save d m = Some d' → stored_ids d' = {[tmdb_id m]} ∪ stored_ids d) →
       ∀ (d : DB) (b : list Movie),
         bulk_create d b = None →
         stored_ids d ⊆ stored_ids (_bulk_create_batch d b)
         ∧ stored_ids (_bulk_create_batch d b)
           ⊆ stored_ids d ∪ list_to_set (ids_of b)
         ∧ ∀ (b1 : list Movie) (m : Movie) (b2 : list Movie) (d1 : DB),
             b = b1 ++ m :: b2 →
             save (save_each d b1) m = Some d1 →
             tmdb_id m ∈ stored_ids (_bulk_create_batch d b)).
Proof.
  split; [|split].
  - intros DB S cfg d it _. by apply loop_credits.
  - intros DB S d d' b Hok. unfold _bulk_create_batch. by rewrite Hok.
  - intros DB S Hsave d b Hraise. unfold _bulk_create_batch. rewrite Hraise.
    split; [by apply save_each_keeps|].
    split; [by apply save_each_within|].
    intros b1 m b2 d1 -> Hs. by eapply save_each_commits.
Qed.

(** Witness for C5: a batch of a good record and one the table refuses;
    the batch-level commit raises, the good record is written. *)
Lemma committer_contract_witness :
  bulk_create ([] : list Movie) [movie 1; too_large] = None
  ∧ tmdb_id (movie 1)
    ∈ stored_ids (_bulk_create_batch ([] : list Movie) [movie 1; too_large]).
Proof.
  split; [reflexivity|].
  destruct committer_contract as (_ & _ & Hretry).
  destruct (Hretry (list Movie) table table_save_adds [] [movie 1; too_large])
    as (_ & _ & Hkept); [reflexivity|].
  apply (Hkept [] (movie 1) [too_large] [movie 1]); reflexivity.
Defined.

(** C5 as stated fails: the committer does not report how many records it
    committed, and the supervisor counts a dropped record as imported.  A
    batch of a good record and one the table refuses ends with imported = 2
    and one row written; no counter records the dropped one. *)
Lemma imported_counts_dropped_record :
  let it := [Ok (Ready (movie 1)); Ok (Ready too_large)] in
  let st := final (bulk_import_tmdb (config 10 2) ([] : list Movie) it) in
  commits st = [[movie 1; too_large]]
  ∧ imported st = 2
  ∧ db st = [movie 1]
  ∧ imported st ≠ Z.of_nat (length (db st))
  ∧ skipped_invalid st = 0 ∧ skipped_existing st = 0.
Proof. vm_compute. repeat split; discriminate. Qed.

(* --------------------------------------------------------------------- *)
(** ** Interruption *)


Section Interrupt.
Context {DB : Type} `{Storage DB}.
Implicit Types (st : State DB) (cfg : Config).

(** While the pending batch stays below the batch size and the limit is
    not reached, the loop only appends to the batch. *)
Lemma loop_no_flush cfg pre tail : ∀ ps st,
  prepared_all cfg pre = Some ps →
  imported st < limit cfg →
  Z.of_nat (length (batch st))
  + Z.of_nat (length (fresh (existing_ids st) (valids ps))) < batch_size cfg →
  ∃ st2, loop cfg (pre ++ tail) st = loop cfg tail st2
    ∧ batch st2 = batch st ++ fresh (existing_ids st) (valids ps)
    ∧ imported st2 = imported st
    ∧ commits st2 = commits st
    ∧ db st2 = db st.
Proof.
  induction pre as [|[md|e] rest IH]; intros ps st Hps Hlim Hroom.
  - injection Hps as <-. exists st. simpl. by rewrite app_nil_r.
  - apply prepared_all_cons in Hps as (p & ps' & Hp & Hps' & ->).
    simpl. rewrite (proj2 (Z.leb_gt _ _) Hlim), Hp.
    set (st1 := count_processed st).
    assert (∃ st3, dispatch cfg st1 p = st3
              ∧ batch st3 ++ fresh (existing_ids st3) (valids ps')
                = batch st ++ fresh (existing_ids st) (valids (p :: ps'))
              ∧ imported st3 = imported st ∧ commits st3 = commits st
              ∧ db st3 = db st) as (st3 & Hd & Hb & Hi & Hc & Hdb).
    { eexists. split; [reflexivity|].
      destruct p as [| | |f]; simpl; try done.
      case_bool_decide as Hin; simpl; [done|].
      unfold valids in Hroom. simpl in Hroom.
      rewrite (bool_decide_eq_false_2 _ Hin) in Hroom. simpl in Hroom.
      rewrite (proj2 (Z.leb_gt _ _)) by (rewrite length_app; simpl; lia).
      simpl. by rewrite <- app_assoc. }
    rewrite Hd.
    destruct (IH ps' st3 Hps') as (st2 & Hrun & Hb2 & Hi2 & Hc2 & Hdb2).
    + lia.
    + apply (f_equal length) in Hb. rewrite !length_app in Hb.
      unfold Movie in *. lia.
    + exists st2. split; [exact Hrun|]. rewrite Hb2, Hi2, Hc2, Hdb2.
      by rewrite Hb, Hi, Hc, Hdb.
  - done.
Qed.

End Interrupt.



(* --------------------------------------------------------------------- *)
(** ** The hierarchical parser *)

Section Validation.
Import TMDBParser.
#[local] Existing Instance Ref.decoders.

(** A dict with a truthy [original_title] passes the validator whatever
    its other keys: the [or] is evaluated after the whole conjunction. *)
Lemma original_title_alone_validates (items : list (pyval * pyval)) (t : pyval) :
  lookup_str "original_title" items = Some t → truthy t = true →
  ∃ v, _is_valid_movie (VDict items) = Ok v ∧ truthy v = true.
Proof.
  intros Ht Htrue. unfold _is_valid_movie. simpl.
  destruct (lookup_str "id" items) as [i|]; simpl;
    [destruct (is_none i); simpl|];
    try (destruct (lookup_str "title" items) as [tt|]; simpl;
         [destruct (truthy tt) eqn:E|]);
    rewrite ?Ht; simpl; eauto.
Qed.

(** C7, evaluated.  The validator accepts an object without identifier:
    the line [{original_title: X, release_date: 1999-01-01}] (JSON quotes
    omitted here) decodes to a dict with no [id] key, [_is_valid_movie]
    returns the truthy title, [_stream_fallback] yields the object, the
    conversion then raises [KeyError] at [movie_data['id']], and the import
    aborts: the valid line that follows is never imported. *)
Theorem missing_id_passes_validation :
  json_loads orphan_line = Ok orphan
  ∧ lookup_str "id" [(VStr "original_title", VStr "X");
                     (VStr "release_date", VStr "1999-01-01")] = None
  ∧ _is_valid_movie orphan = Ok (VStr "X")
  ∧ truthy (VStr "X") = true
  ∧ _stream_fallback [orphan_line] = [Ok orphan]
  ∧ movie_to_django_fields orphan = Raise KeyError
  ∧ (∃ st, bulk_import_tmdb (config 10 2) ([] : list Movie)
             (raw_stream (_stream_fallback [orphan_line; seven_line]))
           = Aborted KeyError st
           ∧ imported st = 0 ∧ db st = [])
  ∧ (∃ st, bulk_import_tmdb (config 10 2) ([] : list Movie)
             (raw_stream (_stream_fallback [seven_line]))
           = Done st
           ∧ imported st = 1 ∧ ids_of (db st) = [7]).
Proof.
  repeat split; try (vm_compute; reflexivity).
  - eexists. split; [vm_compute; reflexivity|]. split; reflexivity.
  - eexists. split; [vm_compute; reflexivity|]. split; reflexivity.
Qed.

End Validation.

(* --------------------------------------------------------------------- *)
(** ** The tabular parser *)

Section Embedded.
Import KaggleTMDBParser.

(** The decoding order of [_parse_json_field], for any two decoders: the
    guard, then the JSON decoder on the text with the quotes replaced,
    then the literal decoder on the text as it is. *)
Lemma parse_json_field_order `{Decoders} (value : string) :
  _parse_json_field value
  = if negb (truthy (VStr value)) || str_in value [""; "[]"; "{}"; "nan"; "None"]
    then Ok VNone
    else match json_loads (replace_char squote dquote value) with
         | Ok v => Ok v
         | Raise e1 =>
             if caught e1 [JSONDecodeError; TypeError] then
               match literal_eval value with
               | Ok v => Ok v
               | Raise e2 =>
                   if caught e2 [ValueError; SyntaxError] then Ok VNone
                   else Raise e2
               end
             else Raise e1
         end.
Proof. reflexivity. Qed.

(** When both decoders fail with the errors the handlers name, the field
    is absent and the genre string is empty. *)
Lemma undecodable_genres_absent `{Decoders} (value : string) (e1 e2 : exn) :
  str_in value [""; "[]"; "{}"; "nan"; "None"] = false →
  json_loads (replace_char squote dquote value) = Raise e1 →
  caught e1 [JSONDecodeError; TypeError] = true →
  literal_eval value = Raise e2 →
  caught e2 [ValueError; SyntaxError] = true →
  _parse_json_field value = Ok VNone ∧ _extract_genres value = Ok "".
Proof.
  intros Hguard H1 Hc1 H2 Hc2.
  assert (_parse_json_field value = Ok VNone) as Hp.
  { rewrite parse_json_field_order.
    destruct (negb (truthy (VStr value)) || _); [done|].
    by rewrite H1, Hc1, H2, Hc2. }
  split; [exact Hp|]. unfold _extract_genres. by rewrite Hp.
Qed.

#[local] Existing Instance Ref.decoders.

(** C9, evaluated.  The fallback does not always end in absence: for the
    column text [{[1]: 2}] the JSON decoder raises [JSONDecodeError], the
    literal decoder raises [TypeError] (a list cannot be a dict key), and
    the inner handler names only [ValueError] and [SyntaxError], so
    [_parse_json_field] raises.  The row is not yielded with empty genres:
    [_row_to_movie] raises, the generator stops, and the import aborts
    without the rows that follow.  With an empty genre list the same row
    is a valid record. *)
Theorem undecodable_genres_can_raise :
  json_loads (replace_char squote dquote list_keyed) = Raise JSONDecodeError
  ∧ literal_eval list_keyed = Raise TypeError
  ∧ caught TypeError [ValueError; SyntaxError] = false
  ∧ _parse_json_field list_keyed = Raise TypeError
  ∧ _extract_genres list_keyed = Raise TypeError
  ∧ _row_to_movie (<["genres" := SStr list_keyed]> heat) true 0 = Raise TypeError
  ∧ (∃ f, _row_to_movie (<["genres" := SStr "[]"]> heat) true 0 = Ok (Some f)
          ∧ tmdb_id f = 949 ∧ genres f = "")
  ∧ (∃ st, bulk_import_tmdb (config 10 2) ([] : list Movie)
             (ready_stream
                (_stream_with_csv [<["genres" := SStr list_keyed]> heat; heat] true 0))
           = Aborted TypeError st
           ∧ imported st = 0 ∧ db st = []).
Proof.
  repeat split; try (vm_compute; reflexivity).
  - eexists. split; [vm_compute; reflexivity|]. split; reflexivity.
  - eexists. split; [vm_compute; reflexivity|]. split; reflexivity.
Qed.

End Embedded.

Section Identifier.
Import KaggleTMDBParser.

(** [int(f)] of a finite float is the quotient that rounds toward zero. *)
Lemma int_of_float_truncates (s : bool) (m : positive) (e : Z) :
  int_of_float (S754_finite s m e)
  = Ok (let v := if s then Zneg m else Zpos m in
        if 0 <=? e then v * 2 ^ e else Z.quot v (2 ^ (- e))).
Proof.
  unfold int_of_float. f_equal. destruct (0 <=? e) eqn:He.
  - apply Z.leb_le in He. rewrite Z.shiftl_mul_pow2 by done.
    destruct s; lia.
  - apply Z.leb_gt in He.
    assert (0 < 2 ^ (- e)) as Hpow by (apply Z.pow_pos_nonneg; lia).
    rewrite Z.shiftr_div_pow2 by lia.
    destruct s.
    + change (Zneg m) with (- Zpos m). rewrite Z.quot_opp_l by lia.
      rewrite Z.quot_div_nonneg by lia. done.
    + rewrite Z.quot_div_nonneg by lia. done.
Qed.

(** An [int] too long for [str] is too large for [float]. *)
Lemma too_long_overflows (z : Z) :
  too_long z = true → float_of_int z = Raise OverflowError.
Proof.
  unfold too_long, float_of_int. intros Hz%Z.leb_le.
  assert (Z.log2 str_limit ≤ Z.log2 (Z.abs z)) as Hlog
    by (apply Z.log2_le_mono; exact Hz).
  assert (Z.log2 str_limit = 14284) as Hlim by (vm_compute; reflexivity).
  rewrite Hlim in Hlog. clear Hz Hlim.
  rewrite (proj2 (Z.ltb_lt _ _)); [done|]. unfold emax. lia.
Qed.

Lemma py_str_of_float_ok (value : scalar) (f : float) :
  float_of_scalar value = Ok f → py_str value = Ok (str_of_scalar value).
Proof.
  destruct value as [|b|z|g|s]; try done. simpl. intros Hf.
  destruct (too_long z) eqn:Hz; [|done].
  by rewrite (too_long_overflows _ Hz) in Hf.
Qed.

Lemma safe_int_truncates (value : scalar) (s : bool) (m : positive) (e : Z) :
  is_blank value = false →
  float_of_scalar value = Ok (S754_finite s m e) →
  _safe_int value
  = Ok (Some (let v := if s then Zneg m else Zpos m in
              if 0 <=? e then v * 2 ^ e else Z.quot v (2 ^ (- e)))).
Proof.
  intros Hb Hf. unfold _safe_int. rewrite (py_str_of_float_ok _ _ Hf).
  change (Ok ?x ≫= ?k) with (k x). cbv beta. rewrite Hb, Hf. simpl.
  pose proof (int_of_float_truncates s m e) as Ht. simpl in Ht.
  unfold int_of_float in Ht. injection Ht as ->. reflexivity.
Qed.

Lemma zero_id_no_record `{Decoders} (row : gmap string scalar)
    (only_released : bool) (min_votes : Z) :
  _safe_int (get row "id" (SStr "")) = Ok (Some 0) →
  ∀ f, _row_to_movie row only_released min_votes ≠ Ok (Some f).
Proof.
  intros Hid f Hm. unfold _row_to_movie in Hm.
  repeat passed Hm.
  match goal with
  | Hx : _safe_int (get row "id" (SStr "")) = Ok (Some ?z),
    Hz : (?z =? 0) = false |- _ =>
      rewrite Hid in Hx; injection Hx as <-; discriminate Hz
  end.
Qed.

#[local] Existing Instance Ref.decoders.

(** C10.  A row whose identifier column coerces to the integer 0 never
    yields a record, whatever its other columns: [if not tmdb_id] treats 0
    like a missing identifier.  The row [heat] with id 0 returns absence,
    with id 1 it is a record.  [_safe_int] goes through [float], so a
    decimal identifier is cut toward zero: 12.7 gives 12, -3.9 gives -3,
    and 0.4 gives the rejected 0. *)
Theorem zero_id_rejected :
  (∀ (D : Decoders) (row : gmap string scalar) (only_released : bool)
     (min_votes : Z),
     _safe_int (get row "id" (SStr "")) = Ok (Some 0) →
     ∀ f, _row_to_movie row only_released min_votes ≠ Ok (Some f))
  ∧ _safe_int (get (<["id" := SStr "0"]> heat) "id" (SStr "")) = Ok (Some 0)
  ∧ _row_to_movie (<["id" := SStr "0"]> heat) true 100 = Ok None
  ∧ (∃ f, _row_to_movie (<["id" := SStr "1"]> heat) true 100 = Ok (Some f)
          ∧ tmdb_id f = 1)
  ∧ (∀ (value : scalar) (s : bool) (m : positive) (e : Z),
       is_blank value = false →
       float_of_scalar value = Ok (S754_finite s m e) →
       _safe_int value
       = Ok (Some (let v := if s then Zneg m else Zpos m in
                   if 0 <=? e then v * 2 ^ e else Z.quot v (2 ^ (- e)))))
  ∧ _safe_int (SStr "12.7") = Ok (Some 12)
  ∧ _safe_int (SStr "-3.9") = Ok (Some (-3))
  ∧ _safe_int (SStr "0.4") = Ok (Some 0)
  ∧ _row_to_movie (<["id" := SStr "0.4"]> heat) true 100 = Ok None.
Proof.
  split; [intros D; apply zero_id_no_record|].
  split; [vm_compute; reflexivity|].
  split; [vm_compute; reflexivity|].
  split; [eexists; split; [vm_compute; reflexivity | reflexivity]|].
  split; [apply safe_int_truncates|].
  repeat split; vm_compute; reflexivity.
Qed.

(** Witness for C10: the row [heat] with id 0, and the text 12.7. *)
Lemma zero_id_rejected_witness :
  (∀ f, _row_to_movie (<["id" := SStr "0"]> heat) true 100 ≠ Ok (Some f))
  ∧ _safe_int (SStr "12.7") = Ok (Some (Z.quot 7149464408450662 (2 ^ 49))).
Proof.
  destruct zero_id_rejected as (Hzero & _ & _ & _ & Htrunc & _).
  split.
  - apply (Hzero Ref.decoders). vm_compute. reflexivity.
  - apply (Htrunc (SStr "12.7") false 7149464408450662%positive (-49));
      vm_compute; reflexivity.
Defined.

End Identifier.

(* --------------------------------------------------------------------- *)
(** ** Truncation *)










(* ===================================================================== *)
(** * Further properties of the supervisor *)
(* ===================================================================== *)

(** ** No conversion raises [KeyboardInterrupt] *)

Lemma quiet_bind {A B : Type} (m : res A) (k : A → res B) :
  quiet m → (∀ a, quiet (k a)) → quiet (m ≫= k).
Proof.
  intros Hm Hk. destruct m as [a|e]; [apply Hk|].
  intros [= ->]. by apply Hm.
Qed.

Lemma quiet_try {A : Type} (m h : res A) (cs : list exn) :
  quiet m → quiet h → quiet (try_except m cs h).
Proof.
  intros Hm Hh. unfold try_except. destruct m as [a|e]; [exact Hm|].
  destruct (caught e cs); [exact Hh | exact Hm].
Qed.

(** One step through a body: the result of each case and of each bind. *)
Ltac quiet_step :=
  match goal with
  | |- quiet (Ok _) => discriminate
  | |- quiet (Raise _) => discriminate
  | |- quiet (_ ≫= _) => apply quiet_bind; [|intros ?]
  | |- quiet (try_except _ _ _) => apply quiet_try
  | |- quiet (match ?x with _ => _ end) => destruct x
  | |- quiet _ => assumption
  end.

Lemma int_of_str_quiet (s : string) : quiet (int_of_str s).
Proof. unfold int_of_str. repeat quiet_step. Qed.

Lemma float_of_scalar_quiet (a : scalar) : quiet (float_of_scalar a).
Proof.
  destruct a; simpl; try discriminate.
  - unfold float_of_int. repeat quiet_step.
  - unfold float_of_str. repeat quiet_step.
Qed.

Lemma py_int_quiet (v : pyval) : quiet (py_int v).
Proof.
  destruct v as [[| | |f|s]| | | |]; simpl; try discriminate.
  - destruct f; discriminate.
  - apply int_of_str_quiet.
Qed.

Lemma py_get_quiet (x : pyval) (k : string) (dflt : pyval) :
  quiet (py_get x k dflt).
Proof. destruct x; discriminate. Qed.

Lemma genre_names_quiet (l : list pyval) : quiet (TMDBParser.genre_names l).
Proof.
  induction l as [|gid l IH]; simpl; [discriminate|].
  destruct (hashable gid); [|discriminate].
  apply quiet_bind; [exact IH | intros; discriminate].
Qed.

Lemma movie_to_django_fields_quiet (movie_data : pyval) :
  quiet (TMDBParser.movie_to_django_fields movie_data).
Proof.
  pose proof py_get_quiet. pose proof int_of_str_quiet.
  pose proof py_int_quiet. pose proof genre_names_quiet.
  pose proof float_of_scalar_quiet.
  unfold TMDBParser.movie_to_django_fields, TMDBParser.parse_release_year,
    TMDBParser.parse_genres, py_iter, py_getitem, py_slice_to, py_float.
  repeat quiet_step; auto.
Qed.

Lemma prepare_quiet (cfg : Config) (md : movie_data) : quiet (prepare cfg md).
Proof.
  pose proof py_get_quiet. pose proof float_of_scalar_quiet.
  pose proof movie_to_django_fields_quiet.
  unfold prepare, py_float. repeat quiet_step; auto.
Qed.

(** ** The counters *)

Section Counters.
Context {DB : Type} `{Storage DB}.
Implicit Types (st : State DB) (cfg : Config).

Lemma dispatch_classifies cfg st p :
  accepted_count (dispatch cfg st p) + skipped_existing (dispatch cfg st p)
  + skipped_invalid (dispatch cfg st p) + skipped_adult (dispatch cfg st p)
  + skipped_unpopular (dispatch cfg st p)
  = accepted_count st + skipped_existing st + skipped_invalid st
    + skipped_adult st + skipped_unpopular st + 1
  ∧ processed (dispatch cfg st p) = processed st.
Proof.
  rewrite dispatch_accepted, dispatch_skipped_existing, dispatch_processed.
  split; [|done].
  destruct p as [| | |f]; simpl; try lia.
  case_bool_decide; simpl; [lia|].
  destruct (batch_size cfg <=? _); simpl; lia.
Qed.

Lemma flush_rest_skips st :
  skipped_invalid (flush_rest st) = skipped_invalid st
  ∧ skipped_adult (flush_rest st) = skipped_adult st
  ∧ skipped_unpopular (flush_rest st) = skipped_unpopular st.
Proof. unfold flush_rest. destruct (batch st); done. Qed.

Lemma loop_counters cfg it : ∀ st st',
  processed st
  = accepted_count st + skipped_existing st + skipped_invalid st
    + skipped_adult st + skipped_unpopular st →
  loop cfg it st = Done st' →
  processed st'
  = imported st' + skipped_existing st' + skipped_invalid st'
    + skipped_adult st' + skipped_unpopular st'.
Proof.
  assert (∀ st st', processed st
            = accepted_count st + skipped_existing st + skipped_invalid st
              + skipped_adult st + skipped_unpopular st →
            Done (flush_rest st) = Done st' →
            processed st'
            = imported st' + skipped_existing st' + skipped_invalid st'
              + skipped_adult st' + skipped_unpopular st') as Hend.
  { intros st st' Hinv [= <-].
    destruct (flush_rest_counters st) as (-> & -> & _).
    destruct (flush_rest_skips st) as (-> & -> & ->).
    by rewrite flush_rest_imported. }
  induction it as [|[md|e] rest IH]; intros st st' Hinv; simpl.
  - by apply Hend.
  - destruct (limit cfg <=? imported st); [by apply Hend|].
    pose proof (prepare_quiet cfg md) as Hq.
    destruct (prepare cfg md) as [p|e].
    + apply IH.
      destruct (dispatch_classifies cfg (count_processed st) p) as [Hsum ->].
      unfold accepted_count in *. simpl in *. lia.
    + unfold on_exception. destruct e; simpl; first [done | by destruct Hq].
  - unfold on_exception. destruct (exn_eqb e KeyboardInterrupt); [|done].
    by apply Hend.
Qed.

(** X1.  When [bulk_import_tmdb] returns, normally or after an interrupt
    taken while the loop waits for the next entry, the counters of its
    summary add up: every entry counted in [processed] is counted once
    more, as imported or under one of the four skip reasons. *)
Theorem counters_add_up cfg (d : DB) (it : stream movie_data) st :
  bulk_import_tmdb cfg d it = Done st →
  processed st
  = imported st + skipped_existing st + skipped_invalid st
    + skipped_adult st + skipped_unpopular st.
Proof.
  apply loop_counters. unfold accepted_count. simpl. lia.
Qed.

(** X3.  With a limit of zero or below nothing happens: whatever the
    stream, no entry is processed, no batch is committed and the store is
    the one the run started with. *)
Theorem nonpositive_limit_imports_nothing cfg (d : DB) (it : stream movie_data) :
  limit cfg ≤ 0 → final (bulk_import_tmdb cfg d it) = start d.
Proof.
  intros Hlim. unfold bulk_import_tmdb.
  destruct it as [|[md|e] rest]; simpl.
  - reflexivity.
  - rewrite (proj2 (Z.leb_le _ _)) by (simpl; lia). reflexivity.
  - unfold on_exception. destruct (exn_eqb e KeyboardInterrupt); reflexivity.
Qed.

(** What the loop keeps about the batches: the pending batch is shorter
    than a full batch, and every committed batch has between one record
    and a full batch. *)
Lemma dispatch_batches cfg st p :
  Z.of_nat (length (batch st)) < Z.max 1 (batch_size cfg) →
  Forall (λ b, 1 ≤ Z.of_nat (length b) ≤ Z.max 1 (batch_size cfg)) (commits st) →
  Z.of_nat (length (batch (dispatch cfg st p))) < Z.max 1 (batch_size cfg)
  ∧ Forall (λ b, 1 ≤ Z.of_nat (length b) ≤ Z.max 1 (batch_size cfg))
      (commits (dispatch cfg st p)).
Proof.
  intros Hb Hc. destruct p as [| | |f]; simpl; try done.
  case_bool_decide; simpl; [done|].
  destruct (batch_size cfg <=? _) eqn:E; simpl.
  - split; [lia|]. apply Forall_app. split; [done|].
    apply Forall_singleton. rewrite length_app. simpl. lia.
  - apply Z.leb_gt in E. done || (split; [lia | done]).
Qed.

Lemma flush_rest_batches cfg st :
  Z.of_nat (length (batch st)) < Z.max 1 (batch_size cfg) →
  Forall (λ b, 1 ≤ Z.of_nat (length b) ≤ Z.max 1 (batch_size cfg)) (commits st) →
  Forall (λ b, 1 ≤ Z.of_nat (length b) ≤ Z.max 1 (batch_size cfg))
    (commits (flush_rest st)).
Proof.
  intros Hb Hc. unfold flush_rest. destruct (batch st) as [|m b] eqn:E; [done|].
  simpl. apply Forall_app. split; [done|].
  apply Forall_singleton. rewrite E. simpl in *. lia.
Qed.

Lemma loop_batches cfg it : ∀ st,
  Z.of_nat (length (batch st)) < Z.max 1 (batch_size cfg) →
  Forall (λ b, 1 ≤ Z.of_nat (length b) ≤ Z.max 1 (batch_size cfg)) (commits st) →
  Forall (λ b, 1 ≤ Z.of_nat (length b) ≤ Z.max 1 (batch_size cfg))
    (commits (final (loop cfg it st))).
Proof.
  assert (∀ e st,
    Z.of_nat (length (batch st)) < Z.max 1 (batch_size cfg) →
    Forall (λ b, 1 ≤ Z.of_nat (length b) ≤ Z.max 1 (batch_size cfg)) (commits st) →
    Forall (λ b, 1 ≤ Z.of_nat (length b) ≤ Z.max 1 (batch_size cfg))
      (commits (final (on_exception e st)))) as Hexc.
  { intros e st Hb Hc. unfold on_exception.
    destruct (exn_eqb e KeyboardInterrupt); simpl; [|done].
    by apply flush_rest_batches. }
  induction it as [|[md|e] rest IH]; intros st Hb Hc; simpl.
  - by apply flush_rest_batches.
  - destruct (limit cfg <=? imported st); simpl; [by apply flush_rest_batches|].
    destruct (prepare cfg md) as [p|e].
    + destruct (dispatch_batches cfg (count_processed st) p Hb Hc). by apply IH.
    + by apply Hexc.
  - by apply Hexc.
Qed.

(** X4.  The committer is never called with an empty batch, and never with
    more records than the batch size (one record when the batch size is
    below one), whatever the stream and however the run ends. *)
Theorem committed_batches_bounded cfg (d : DB) (it : stream movie_data) :
  Forall (λ b, 1 ≤ Z.of_nat (length b) ≤ Z.max 1 (batch_size cfg))
    (commits (final (bulk_import_tmdb cfg d it))).
Proof.
  apply loop_batches; simpl; [lia | constructor].
Qed.

End Counters.

(** Witness for X1: a run that ends by an interrupt. *)
Lemma counters_add_up_witness :
  let st := final (bulk_import_tmdb (config 10 2) [movie 2]
                     (ready [1; 2; 1; 3] ++ [Raise KeyboardInterrupt])) in
  processed st
  = imported st + skipped_existing st + skipped_invalid st
    + skipped_adult st + skipped_unpopular st.
Proof.
  apply (counters_add_up (config 10 2) [movie 2]
           (ready [1; 2; 1; 3] ++ [Raise KeyboardInterrupt])).
  vm_compute. reflexivity.
Defined.

(** Witness for X3: limit zero. *)
Lemma nonpositive_limit_imports_nothing_witness :
  final (bulk_import_tmdb (config 0 2) [movie 2] (ready [1; 2; 3]))
  = start [movie 2].
Proof.
  apply (nonpositive_limit_imports_nothing (config 0 2)). vm_compute. discriminate.
Defined.

(** ** The limit when the batch size divides it *)

Section Divides.
Context {DB : Type} `{Storage DB}.
Implicit Types (st : State DB) (cfg : Config).

Lemma next_multiple (b x y : Z) :
  0 < b → (b | x) → (b | y) → x < y → x + b ≤ y.
Proof.
  intros Hb [i ->] [j ->] Hlt.
  assert (i < j) by (apply (Z.mul_lt_mono_pos_r b); lia).
  replace (i * b + b) with ((i + 1) * b) by ring.
  apply Z.mul_le_mono_nonneg_r; lia.
Qed.

Lemma dispatch_in_step cfg st p :
  (batch_size cfg | limit cfg) →
  in_step cfg st → imported st < limit cfg →
  in_step cfg (dispatch cfg st p).
Proof.
  intros Hdiv (Hi & Hb & Hle & Hor) Hlt. unfold in_step.
  destruct p as [| | |f]; simpl; try done.
  case_bool_decide; simpl; [done|].
  unfold Movie in *. rewrite length_app. simpl.
  destruct (batch_size cfg <=? _) eqn:E; simpl.
  - apply Z.leb_le in E.
    assert (Z.of_nat (length (batch st ++ [f])) = batch_size cfg) as ->
      by (unfold Movie; rewrite length_app; simpl; lia).
    split; [by apply Z.divide_add_r, Z.divide_refl|]. split; [simpl; lia|].
    assert (imported st + batch_size cfg ≤ limit cfg)
      by (apply next_multiple; [lia | done..]).
    split; [lia | by right].
  - apply Z.leb_gt in E.
    assert (Z.of_nat (length (batch st ++ [f])) < batch_size cfg)
      by (unfold Movie; rewrite length_app; simpl; lia).
    split; [done|]. split; [done|]. split; [lia | by left].
Qed.

Lemma flush_rest_in_step cfg st :
  (batch_size cfg | limit cfg) →
  in_step cfg st → imported (flush_rest st) ≤ limit cfg.
Proof.
  intros Hdiv (Hi & Hb & Hle & Hor). rewrite flush_rest_imported.
  unfold accepted_count. destruct Hor as [Hlt | ->]; [|simpl; lia].
  assert (imported st + batch_size cfg ≤ limit cfg)
    by (apply next_multiple; [lia | done..]).
  lia.
Qed.

(** X2.  When the limit is not negative and the batch size is at least one
    and divides it (as the defaults 1000 and 1,000,000 do), the imported
    count does not exceed the limit, whatever the stream: when the run
    ends normally, when an exception leaves it, and when an interrupt is
    taken while the loop waits for the next entry. *)
Theorem limit_holds_when_batch_size_divides cfg (d : DB) (it : stream movie_data) :
  1 ≤ batch_size cfg → 0 ≤ limit cfg → (batch_size cfg | limit cfg) →
  imported (final (bulk_import_tmdb cfg d it)) ≤ limit cfg.
Proof.
  intros Hbs Hlim Hdiv. unfold bulk_import_tmdb.
  assert (in_step cfg (start d)) as Hstart.
  { unfold in_step. simpl. split; [apply Z.divide_0_r|].
    split; [lia|]. split; [lia | by right]. }
  generalize dependent (start d).
  assert (∀ e st, in_step cfg st →
            imported (final (on_exception e st)) ≤ limit cfg) as Hexc.
  { intros e st Hst. unfold on_exception.
    destruct (exn_eqb e KeyboardInterrupt); simpl.
    - by apply flush_rest_in_step.
    - by destruct Hst as (_ & _ & ? & _). }
  induction it as [|[md|e] rest IH]; intros st Hst; simpl.
  - by apply flush_rest_in_step.
  - destruct (limit cfg <=? imported st) eqn:E; simpl.
    + by apply flush_rest_in_step.
    + apply Z.leb_gt in E. destruct (prepare cfg md) as [p|e].
      * apply IH. by apply dispatch_in_step.
      * by apply Hexc.
  - by apply Hexc.
Qed.

(** X5.  An exception other than [KeyboardInterrupt] that leaves the
    stream while K accepted records are pending (K below the batch size)
    aborts the import with those K records uncommitted: the committer was
    never called and the store is untouched, although their ids are in the
    deduplication set. *)
Theorem abort_drops_pending_batch cfg (d : DB) (pre post : stream movie_data)
    (ps : list prepared) (e : exn) :
  e ≠ KeyboardInterrupt →
  prepared_all cfg pre = Some ps →
  0 < limit cfg →
  Z.of_nat (length (fresh (stored_ids d) (valids ps))) < batch_size cfg →
  ∃ st, bulk_import_tmdb cfg d (pre ++ Raise e :: post) = Aborted e st
    ∧ batch st = fresh (stored_ids d) (valids ps)
    ∧ commits st = []
    ∧ db st = d
    ∧ imported st = 0.
Proof.
  intros He Hps Hlim Hroom.
  destruct (loop_no_flush cfg pre (Raise e :: post) ps (start d) Hps)
    as (st2 & Hrun & Hb & Hi & Hc & Hdb); [done | simpl; lia |].
  exists st2. unfold bulk_import_tmdb. rewrite Hrun. simpl.
  unfold on_exception. destruct e; try done.
Qed.

(** X6.  In CSV mode the supervisor counts no entry as invalid, adult or
    unpopular: rows that fail a filter or a required field never leave the
    parser, so the summary shows them nowhere. *)
Theorem csv_mode_counts_no_rejection cfg (d : DB) (rows : stream Fields) :
  let st := final (bulk_import_tmdb cfg d (ready_stream rows)) in
  skipped_invalid st = 0 ∧ skipped_adult st = 0 ∧ skipped_unpopular st = 0.
Proof.
  unfold bulk_import_tmdb.
  assert (skipped_invalid (start d) = 0 ∧ skipped_adult (start d) = 0
          ∧ skipped_unpopular (start d) = 0) as Hstart by done.
  generalize dependent (start d).
  assert (∀ e st, skipped_invalid st = 0 ∧ skipped_adult st = 0
                  ∧ skipped_unpopular st = 0 →
            skipped_invalid (final (on_exception e st)) = 0
            ∧ skipped_adult (final (on_exception e st)) = 0
            ∧ skipped_unpopular (final (on_exception e st)) = 0) as Hexc.
  { intros e st Hst. unfold on_exception.
    destruct (exn_eqb e KeyboardInterrupt); simpl; [|done].
    by destruct (flush_rest_skips st) as (-> & -> & ->). }
  induction rows as [|[f|e] rest IH]; intros st Hst; simpl.
  - by destruct (flush_rest_skips st) as (-> & -> & ->).
  - destruct (limit cfg <=? imported st); simpl.
    + by destruct (flush_rest_skips st) as (-> & -> & ->).
    + apply IH. case_bool_decide; simpl; [done|].
      destruct (batch_size cfg <=? _); done.
  - by apply Hexc.
Qed.

End Divides.

(** Witness for X2: the default batch size and limit. *)
Lemma limit_holds_when_batch_size_divides_witness :
  imported (final (bulk_import_tmdb (config 1000000 1000) [movie 2]
                     (ready [1; 2; 1; 3])))
  ≤ 1000000.
Proof.
  apply (limit_holds_when_batch_size_divides (config 1000000 1000)).
  - vm_compute. discriminate.
  - vm_compute. discriminate.
  - exists 1000. reflexivity.
Defined.

(** Witness for X5: a [TypeError] from the parser after two accepted
    records. *)
Lemma abort_drops_pending_batch_witness :
  ∃ st, bulk_import_tmdb (config 10 5) [movie 2]
          (ready [1; 2; 1; 3] ++ Raise TypeError :: ready [7])
        = Aborted TypeError st
      ∧ batch st = [movie 1; movie 3] ∧ commits st = [] ∧ db st = [movie 2]
      ∧ imported st = 0.
Proof.
  destruct (abort_drops_pending_batch (config 10 5) [movie 2] (ready [1; 2; 1; 3])
              (ready [7]) (map Valid (map movie [1; 2; 1; 3])) TypeError)
    as (st & Hrun & Hb & Hrest).
  - discriminate.
  - reflexivity.
  - reflexivity.
  - reflexivity.
  - exists st. split; [exact Hrun|]. split; [|exact Hrest].
    rewrite Hb. vm_compute. reflexivity.
Defined.

(* ===================================================================== *)
(** * Further properties of the hierarchical parser *)
(* ===================================================================== *)

Section Years.
Import TMDBParser.



Lemma genre_names_ints (ids : list Z) :
  genre_names (map VInt ids) = Ok (omap (λ z, GENRE_MAP !! z) ids).
Proof.
  induction ids as [|z ids IH]; [done|].
  cbn [map genre_names]. rewrite IH. simpl. by destruct (GENRE_MAP !! z).
Qed.

(** X9.  On a list of integer genre codes [parse_genres] never raises: it
    returns the names of the known codes, in the order of the codes,
    joined by a comma and a space; unknown codes leave no trace. *)
Theorem parse_genres_of_codes (ids : list Z) :
  parse_genres (VList (map VInt ids))
  = Ok (join ", " (omap (λ z, GENRE_MAP !! z) ids)).
Proof.
  unfold parse_genres. destruct ids as [|z ids]; [reflexivity|].
  change (truthy (VList (map VInt (z :: ids)))) with true.
  cbv beta iota delta [negb py_iter].
  change (Ok (map VInt (z :: ids)) ≫= ?k) with (k (map VInt (z :: ids))).
  cbv beta. by rewrite genre_names_ints.
Qed.

End Years.

(** ** What an emitted record is known to have *)

Section Records.
Import TMDBParser KaggleTMDBParser.

Lemma parse_release_year_range (release_date : pyval) (y : Z) :
  parse_release_year release_date = Ok (Some y) → 1888 ≤ y ≤ 2100.
Proof.
  unfold parse_release_year.
  destruct (negb (truthy release_date)); [discriminate|].
  destruct release_date as [[| | | |s]| | | |]; simpl; try discriminate.
  destruct (4 <=? len s); simpl; [|discriminate].
  destruct (int_of_str (slice_to 4 s)) as [y'|e]; simpl.
  - destruct ((1888 <=? y') && (y' <=? 2100)) eqn:Hr; [intros [= <-]|discriminate].
    apply andb_true_iff in Hr as [?%Z.leb_le ?%Z.leb_le]. lia.
  - destruct (is_instance e ValueError || _); discriminate.
Qed.

Lemma _parse_year_range (release_date : scalar) (y : Z) :
  _parse_year release_date = Ok (Some y) → 1888 ≤ y ≤ 2100.
Proof.
  unfold _parse_year.
  destruct (_ || _); [discriminate|].
  destruct (py_str release_date) as [s|e]; simpl;
    [|destruct (is_instance e ValueError || _); discriminate].
  destruct (4 <=? len s); simpl; [|discriminate].
  destruct (int_of_str _) as [y'|e]; simpl.
  - destruct ((1888 <=? y') && (y' <=? 2100)) eqn:Hr; [intros [= <-]|discriminate].
    apply andb_true_iff in Hr as [?%Z.leb_le ?%Z.leb_le]. lia.
  - destruct (is_instance e ValueError || _); discriminate.
Qed.

Lemma take_nonempty (n : nat) (s : string) :
  (0 < n)%nat → s ≠ "" → take n s ≠ "".
Proof. destruct n, s; simpl; intros; first [lia | done]. Qed.

Lemma py_slice_truthy (n : Z) (x x' : pyval) :
  0 < n → truthy x = true → py_slice_to n x = Ok x' → truthy x' = true.
Proof.
  intros Hn Hx.
  assert (∃ k, Z.to_nat n = S k) as [k Hk] by (exists (Z.to_nat (n - 1)); lia).
  destruct x as [[| | | |s]|l|l|l|d]; simpl; intros [= <-]; simpl in *.
  - unfold slice_to. rewrite Hk. destruct s; [done|]. done.
  - rewrite Hk. by destruct l.
  - rewrite Hk. by destruct l.
Qed.

(** X10.  Every record either normaliser emits has a title that is not
    empty and a year between 1888 and 2100. *)
Theorem emitted_records_titled_and_dated :
  (∀ (movie_data : pyval) (f : Fields),
     movie_to_django_fields movie_data = Ok (Some f) →
     truthy (title f) = true ∧ 1888 ≤ year f ≤ 2100)
  ∧ (∀ (D : Decoders) (row : gmap string scalar) (only_released : bool)
       (min_votes : Z) (f : Fields),
       _row_to_movie row only_released min_votes = Ok (Some f) →
       truthy (title f) = true ∧ 1888 ≤ year f ≤ 2100).
Proof.
  split.
  - intros movie_data f. unfold movie_to_django_fields. intros Hm.
    repeat passed Hm. injection Hm as <-. simpl. split.
    + eapply py_slice_truthy; [| |eassumption]; [lia|].
      by apply negb_false_iff.
    + eapply parse_release_year_range; eassumption.
  - intros D row only_released min_votes f. unfold _row_to_movie.
    cbv zeta. intros Hm.
    repeat passed Hm. injection Hm as <-. simpl. split.
    + apply negb_true_iff. apply String.eqb_neq.
      apply take_nonempty; [lia|]. by apply String.eqb_neq.
    + eapply _parse_year_range; eassumption.
Qed.

(** Witness for X10: the object of the line [seven_line] and the row
    [heat]. *)
Lemma emitted_records_titled_and_dated_witness :
  truthy (title seven_fields) = true ∧ 1888 ≤ year heat_fields ≤ 2100.
Proof.
  destruct emitted_records_titled_and_dated as (Hjson & Hcsv).
  split.
  - apply (Hjson seven seven_fields). vm_compute. reflexivity.
  - apply (Hcsv Ref.decoders heat true 100 heat_fields). vm_compute. reflexivity.
Defined.

Lemma startswith_take (n : nat) (s p : string) :
  startswith s p = true → (String.length p ≤ n)%nat →
  startswith (take n s) p = true.
Proof.
  revert s p. induction n as [|n IH]; intros s [|a p] Hs Hlen;
    destruct s as [|b s]; try done; simpl in Hlen; try lia.
  simpl in Hs. apply andb_true_iff in Hs as [Hab Hs].
  simpl. rewrite Hab. simpl. apply IH; [done | lia].
Qed.

Lemma absolute_poster (p : string) :
  let url := slice_to 500
               (if negb (String.eqb p "") && negb (startswith p "http")
                then (poster_base ++ p)%string else p) in
  url = "" ∨ startswith url "http" = true.
Proof.
  cbv zeta. destruct (String.eqb_spec p "") as [->|Hp]; [by left|]. right.
  apply startswith_take; [|simpl; lia].
  simpl. destruct (startswith p "http") eqn:Hs; done.
Qed.

(** X11.  The poster URL of an emitted record is empty or begins with
    [http]: a relative path is put under the image base, and the cut to 500
    characters leaves the prefix in place. *)
Theorem poster_url_empty_or_absolute :
  (∀ (movie_data : pyval) (f : Fields),
     movie_to_django_fields movie_data = Ok (Some f) →
     poster_path f = "" ∨ startswith (poster_path f) "http" = true)
  ∧ (∀ (D : Decoders) (row : gmap string scalar) (only_released : bool)
       (min_votes : Z) (f : Fields),
       _row_to_movie row only_released min_votes = Ok (Some f) →
       poster_path f = "" ∨ startswith (poster_path f) "http" = true).
Proof.
  split.
  - intros movie_data f. unfold movie_to_django_fields. intros Hm.
    repeat passed Hm. injection Hm as <-. simpl.
    match goal with
    | Hp : match py_or ?pp _ with _ => _ end = Ok _ |- _ =>
        destruct (py_or pp (VStr "")) as [[| | | |p]| | | |];
        try discriminate Hp; injection Hp as <-
    end.
    apply absolute_poster.
  - intros D row only_released min_votes f. unfold _row_to_movie.
    cbv zeta. intros Hm.
    repeat passed Hm. injection Hm as <-. simpl. apply absolute_poster.
Qed.

(** Witness for X11. *)
Lemma poster_url_empty_or_absolute_witness :
  (poster_path seven_fields = "" ∨ startswith (poster_path seven_fields) "http" = true)
  ∧ (poster_path heat_fields = "" ∨ startswith (poster_path heat_fields) "http" = true).
Proof.
  destruct poster_url_empty_or_absolute as (Hjson & Hcsv).
  split.
  - apply (Hjson seven seven_fields). vm_compute. reflexivity.
  - apply (Hcsv Ref.decoders heat true 100 heat_fields). vm_compute. reflexivity.
Defined.

(** X15.  The row filters are sound: with [only_released] an emitted row
    has the status [released] in some letter case, and with a positive
    [min_votes] its vote count reads as an integer that reaches it. *)
Theorem row_filters_sound `{Decoders} (row : gmap string scalar)
    (only_released : bool) (min_votes : Z) (f : Fields) :
  _row_to_movie row only_released min_votes = Ok (Some f) →
  (only_released = true → lower (gets row "status" "") = "released")
  ∧ (0 < min_votes →
     ∃ n, _safe_int (get row "vote_count" (SInt 0)) = Ok (Some n)
          ∧ min_votes ≤ n).
Proof.
  unfold _row_to_movie. intros Hm.
  apply bind_Ok in Hm as (status & Hstatus & Hm).
  apply text_gets in Hstatus as ->.
  destruct (only_released && _) eqn:Hs; [discriminate|].
  apply bind_Ok in Hm as (vc & Hvc & Hm).
  destruct ((0 <? min_votes) && _) eqn:Hv; [discriminate|].
  split.
  - intros ->. simpl in Hs. apply negb_false_iff in Hs.
    by apply String.eqb_eq.
  - intros Hpos. apply andb_false_iff in Hv as [Hv|Hv].
    + apply Z.ltb_ge in Hv. lia.
    + apply Z.ltb_ge in Hv. destruct vc as [n|]; simpl in Hv; [eauto|lia].
Qed.

End Records.

(** ** The line reader *)

Lemma generate_yields {A B : Type} (f : A → res (option B)) (l : list A) (y : B) :
  Ok y ∈ generate f l → ∃ x, x ∈ l ∧ f x = Ok (Some y).
Proof.
  induction l as [|x l IH]; simpl; [by intros ?%elem_of_nil|].
  destruct (f x) as [[y'|]|e] eqn:Hx.
  - intros [[= <-]|Hin]%elem_of_cons.
    + exists x. split; [left|done].
    + destruct (IH Hin) as (x' & ? & ?). exists x'. split; [by right|done].
  - intros Hin. destruct (IH Hin) as (x' & ? & ?).
    exists x'. split; [by right|done].
  - intros [=]%list_elem_of_singleton.
Qed.

Lemma generate_skip {A B : Type} (f : A → res (option B))
    (pre : list A) (x : A) (post : list A) :
  f x = Ok None → generate f (pre ++ x :: post) = generate f (pre ++ post).
Proof.
  intros Hx. induction pre as [|p pre IH]; simpl; [by rewrite Hx|].
  destruct (f p) as [[y|]|e]; by rewrite ?IH.
Qed.

Section Lines.
Import TMDBParser.
Context `{Decoders}.

Lemma decode_line_yields (text : string) (movie : pyval) :
  decode_line text = Ok (Some movie) →
  json_loads text = Ok movie
  ∧ ∃ valid, _is_valid_movie movie = Ok valid ∧ truthy valid = true.
Proof.
  unfold decode_line.
  destruct (json_loads text) as [m|e]; simpl.
  - destruct (_is_valid_movie m) as [v|e] eqn:Hvalid; simpl.
    + destruct (truthy v) eqn:Hv; [intros [= <-]|discriminate]. eauto.
    + destruct (is_instance e JSONDecodeError || _); discriminate.
  - destruct (is_instance e JSONDecodeError || _); discriminate.
Qed.

Lemma decode_line_rejected (text : string) :
  json_loads text = Raise JSONDecodeError → decode_line text = Ok None.
Proof. unfold decode_line. by intros ->. Qed.

Lemma valid_is_titled (movie valid : pyval) :
  _is_valid_movie movie = Ok valid → truthy valid = true →
  ∃ items, movie = VDict items
    ∧ (truthy (default VNone (lookup_str "title" items)) = true
       ∨ truthy (default VNone (lookup_str "original_title" items)) = true).
Proof.
  destruct movie as [a|l|l|l|items]; try discriminate.
  unfold _is_valid_movie. simpl.
  intros Hv Ht. exists items. split; [done|].
  destruct (lookup_str "title" items) as [t|],
    (lookup_str "original_title" items) as [o|]; simpl;
    destruct (negb (is_none _)); simpl in Hv;
    repeat match type of Hv with
           | (if ?c then _ else _) = _ => destruct c eqn:?
           end;
    injection Hv as <-; auto.
Qed.

Lemma line_yields (first : bool) (line : string) (movie : pyval) :
  (if first then array_line line else jsonl_line line) = Ok (Some movie) →
  decode_line (strip_comma (strip line)) = Ok (Some movie).
Proof.
  unfold array_line, jsonl_line. cbv zeta.
  destruct first; destruct (_ : bool); done.
Qed.

(** X12.  Whatever the JSON decoder does, every value the line reader
    yields is the decoding of one line of the file, stripped and without
    its trailing comma, and is a dict whose [title] or [original_title] is
    truthy. *)
Theorem stream_yields_titled_objects (f : list string) (movie : pyval) :
  Ok movie ∈ _stream_fallback f →
  (∃ line, line ∈ f ∧ json_loads (strip_comma (strip line)) = Ok movie)
  ∧ ∃ items, movie = VDict items
      ∧ (truthy (default VNone (lookup_str "title" items)) = true
         ∨ truthy (default VNone (lookup_str "original_title" items)) = true).
Proof.
  intros Hin.
  assert (∃ line, line ∈ f
          ∧ decode_line (strip_comma (strip line)) = Ok (Some movie))
    as (line & Hline & Hd).
  { unfold _stream_fallback, _parse_json_array in Hin.
    destruct f as [|[|c l0] f'].
    - by apply elem_of_nil in Hin.
    - apply generate_yields in Hin as (x & ? & Hx).
      exists x. split; [done|]. by apply (line_yields false).
    - destruct (Ascii.eqb c "[");
        apply generate_yields in Hin as (x & ? & Hx);
        exists x; (split; [done|]).
      + by apply (line_yields true).
      + by apply (line_yields false). }
  apply decode_line_yields in Hd as (Hj & valid & Hv & Ht).
  split; [eauto|]. by eapply valid_is_titled.
Qed.

Lemma non_dict_invalid (movie : pyval) :
  is_dict movie = false → _is_valid_movie movie = Raise AttributeError.
Proof. by destruct movie. Qed.

(** X13.  A line that decodes to a value that is not a dict (a list, a
    number, a text, [null]) ends the stream with [AttributeError]: the
    validation calls [get] on it, and the reader catches only a decoding
    error.  The lines after it are not read. *)
Theorem non_object_line_ends_stream (line : string) (rest : list string)
    (value : pyval) :
  let text := strip line in
  json_loads (strip_comma text) = Ok value →
  is_dict value = false →
  text ≠ "" → text ≠ "[" → text ≠ "]" →
  startswith line "[" = true
  ∨ (startswith text "[" = false ∧ startswith text "]" = false) →
  _stream_fallback (line :: rest) = [Raise AttributeError].
Proof.
  cbv zeta. intros Hj Hv Hne Hopen Hclose Hbr.
  assert (decode_line (strip_comma (strip line)) = Raise AttributeError) as Hd.
  { unfold decode_line. rewrite Hj. simpl. by rewrite (non_dict_invalid _ Hv). }
  unfold _stream_fallback, _parse_json_array.
  destruct line as [|c l0]; [done|].
  destruct (Ascii.eqb c "[") eqn:Hc.
  - simpl generate. unfold array_line. cbv zeta.
    apply String.eqb_neq in Hne, Hopen, Hclose.
    unfold str_in. simpl existsb. rewrite Hne, Hopen, Hclose. simpl.
    by rewrite Hd.
  - destruct Hbr as [Hbr|[Ho Hc']].
    { cbn [startswith] in Hbr. apply andb_true_iff in Hbr as [Hbr _].
      rewrite Ascii.eqb_sym in Hbr. congruence. }
    simpl generate. unfold jsonl_line. cbv zeta.
    apply String.eqb_neq in Hne. rewrite Hne, Ho, Hc'. simpl.
    by rewrite Hd.
Qed.

(** X14.  A blank line, or a line the JSON decoder rejects, leaves no trace
    in the stream: the file with the line and the file without it stream
    the same values. *)
Theorem rejected_line_is_skipped (pre : list string) (line : string)
    (post : list string) :
  pre ≠ [] →
  strip line = "" ∨ json_loads (strip_comma (strip line)) = Raise JSONDecodeError →
  _stream_fallback (pre ++ line :: post) = _stream_fallback (pre ++ post).
Proof.
  intros Hpre Hline.
  assert (array_line line = Ok None ∧ jsonl_line line = Ok None) as [Ha Hl].
  { unfold array_line, jsonl_line. cbv zeta.
    destruct Hline as [->|Hj]; [done|].
    rewrite (decode_line_rejected _ Hj).
    split; by destruct (_ : bool). }
  destruct pre as [|p pre]; [done|].
  unfold _stream_fallback, _parse_json_array.
  change ((p :: pre) ++ line :: post) with (p :: (pre ++ line :: post)).
  change ((p :: pre) ++ post) with (p :: (pre ++ post)).
  destruct p as [|c l0]; [|destruct (Ascii.eqb c "[")].
  - by apply (generate_skip _ ("" :: pre)).
  - by apply (generate_skip _ (String c l0 :: pre)).
  - by apply (generate_skip _ (String c l0 :: pre)).
Qed.

End Lines.

(** Witness for X12: the file of the one line [seven_line]. *)
Lemma stream_yields_titled_objects_witness :
  ∃ items, seven = VDict items
    ∧ (truthy (default VNone (lookup_str "title" items)) = true
       ∨ truthy (default VNone (lookup_str "original_title" items)) = true).
Proof.
  apply (stream_yields_titled_objects (H := Ref.decoders) [seven_line] seven).
  vm_compute. left.
Defined.

(** Witness for X13: a file that holds a JSON array on one line. *)
Lemma non_object_line_ends_stream_witness :
  TMDBParser._stream_fallback (H := Ref.decoders)
    [json_text "[{'id': 7, 'title': 'Seven'}]"; seven_line]
  = [Raise AttributeError].
Proof.
  apply (non_object_line_ends_stream (H := Ref.decoders) _ _
           (VList [VDict [(VStr "id", VInt 7); (VStr "title", VStr "Seven")]]));
    first [ by vm_compute | left; by vm_compute ].
Defined.

(** Witness for X14: a truncated line between two good ones. *)
Lemma rejected_line_is_skipped_witness :
  TMDBParser._stream_fallback (H := Ref.decoders)
    ([seven_line] ++ json_text "{'id': 8, 'title': " :: [seven_line])
  = TMDBParser._stream_fallback (H := Ref.decoders) ([seven_line] ++ [seven_line]).
Proof.
  apply (rejected_line_is_skipped (H := Ref.decoders)); [done|].
  right. vm_compute. reflexivity.
Defined.

(** ** The tabular parser: coercions and list columns *)

Section Columns.
Import KaggleTMDBParser.

Lemma float_of_str_raises (s : string) (e : exn) :
  float_of_str s = Raise e → e = ValueError.
Proof.
  unfold float_of_str. destruct (sign_of (strip s)) as [neg r].
  destruct (_ || _); [discriminate|].
  destruct (String.eqb _ _); [discriminate|].
  destruct (decimal_of r) as [[[n k] [|a t]]|]; intros [= <-]; done.
Qed.

Lemma float_of_scalar_raises (a : scalar) (e : exn) :
  float_of_scalar a = Raise e →
  e = TypeError ∨ e = ValueError ∨ (e = OverflowError ∧ ∃ z, a = SInt z).
Proof.
  destruct a as [|b|z|f|s]; simpl.
  - intros [= <-]. by left.
  - discriminate.
  - intros Hf. right. right. split; [|eauto].
    unfold float_of_int in Hf.
    destruct (emax <? _); [by injection Hf as <-|].
    destruct (round_scaled _ _ _); first [discriminate | by injection Hf as <-].
  - discriminate.
  - intros ->%float_of_str_raises. right. by left.
Qed.

Lemma py_str_raises (a : scalar) (e : exn) :
  py_str a = Raise e → e = ValueError ∧ ∃ z, a = SInt z ∧ too_long z = true.
Proof.
  destruct a as [|b|z|f|s]; simpl; try discriminate.
  destruct (too_long z) eqn:Hz; [|discriminate].
  intros [= <-]. eauto.
Qed.

Lemma py_str_returns (a : scalar) (s : string) :
  py_str a = Ok s → ∀ z, a = SInt z → too_long z = false.
Proof.
  intros Hs z ->. simpl in Hs. by destruct (too_long z).
Qed.

(** X16.  [_safe_float] raises only for an [int]: the [ValueError] of the
    guard's [str] when the int has more than 4300 digits, else the
    [OverflowError] of [float] when it is too large for a float.  On a
    text, a float, a boolean or [None] it always returns. *)
Theorem safe_float_raises_only_on_huge_int (value : scalar) (e : exn) :
  _safe_float value = Raise e →
  ∃ z, value = SInt z
    ∧ ((e = ValueError ∧ too_long z = true)
       ∨ (e = OverflowError ∧ too_long z = false
          ∧ float_of_int z = Raise OverflowError)).
Proof.
  unfold _safe_float.
  destruct (py_str value) as [s|e'] eqn:Hstr; simpl.
  - destruct (is_blank value); [discriminate|].
    destruct (float_of_scalar value) as [f|e''] eqn:Hf; simpl; [discriminate|].
    destruct (float_of_scalar_raises _ _ Hf) as [->|[->|[-> [z ->]]]];
      simpl; try discriminate.
    intros [= <-]. exists z. split; [done|]. right.
    split; [done|]. split; [by eapply py_str_returns|done].
  - intros [= <-]. destruct (py_str_raises _ _ Hstr) as (-> & z & -> & Hz).
    exists z. split; [done|]. by left.
Qed.

(** X17.  [_safe_int] raises in two cases and no other: with [ValueError]
    for an [int] of more than 4300 digits, from the guard's [str], which
    stands before the [try]; with [OverflowError] for a value that is not
    blank and whose float is infinite (a text such as [inf] or [1e999]) or
    cannot be made because an [int] is too large, which the handler for
    [ValueError] and [TypeError] does not catch. *)
Theorem safe_int_raises_on_infinity (value : scalar) (e : exn) :
  _safe_int value = Raise e ↔
  (e = ValueError ∧ ∃ z, value = SInt z ∧ too_long z = true)
  ∨ (e = OverflowError
     ∧ py_str value = Ok (str_of_scalar value)
     ∧ is_blank value = false
     ∧ (float_of_scalar value = Raise OverflowError
        ∨ ∃ sign, float_of_scalar value = Ok (S754_infinity sign))).
Proof.
  unfold _safe_int. split.
  - destruct (py_str value) as [s|e'] eqn:Hstr; simpl.
    + pose proof (py_str_value _ _ Hstr) as ->.
      destruct (is_blank value); [discriminate|].
      destruct (float_of_scalar value) as [f|e''] eqn:Hf; simpl.
      * destruct f as [sg|sg| |sg m x]; simpl; try discriminate.
        intros [= <-]. right. eauto 10.
      * destruct (float_of_scalar_raises _ _ Hf) as [->|[->|[-> _]]];
          simpl; try discriminate.
        intros [= <-]. right. eauto 10.
    + intros [= <-]. left. by apply py_str_raises.
  - intros [(-> & z & -> & Hz)|(-> & -> & -> & [->|[sign ->]])].
    + simpl. by rewrite Hz.
    + reflexivity.
    + reflexivity.
Qed.

Lemma strs_names (names : list string) : strs (map VStr names) = Ok names.
Proof.
  induction names as [|n names IH]; [done|].
  cbn [map strs VStr]. by rewrite IH.
Qed.

Lemma py_join_names (sep : string) (names : list string) :
  py_join sep (map VStr names) = Ok (join sep names).
Proof. unfold py_join. by rewrite strs_names. Qed.

Lemma named_items (l : list pyval) (names : list string) (k : nat) :
  Forall2 named l names →
  omap named_item (firstn k l) = map VStr (firstn k names).
Proof.
  intros Hall. revert k.
  induction Hall as [|item n l names Hitem _ IH]; intros [|k]; try done.
  change (omap named_item (firstn (S k) (item :: l)))
    with (match named_item item with
          | Some y => y :: omap named_item (firstn k l)
          | None => omap named_item (firstn k l)
          end).
  rewrite Hitem. cbn [firstn map]. by rewrite IH.
Qed.

Lemma names_of_items (l : list pyval) (names : list string) (k : nat) :
  Forall2 named l names →
  py_join ", " (omap named_item (firstn k l)) = Ok (join ", " (firstn k names)).
Proof. intros Hall. rewrite (named_items _ _ _ Hall). apply py_join_names. Qed.

Lemma names_of_items_to (l : list pyval) (names : list string) (n : Z) :
  Forall2 named l names →
  py_join ", " (omap named_item (list_to n l)) = Ok (join ", " (list_to n names)).
Proof.
  intros Hall. unfold list_to. rewrite (Forall2_length _ _ _ Hall).
  destruct (0 <=? n); by apply names_of_items.
Qed.

(** A job among the writers' is not the director's. *)
Lemma writer_not_director (c : string * string) :
  is_writer c = true → is_director c = false.
Proof.
  unfold is_writer, is_director.
  destruct (String.eqb_spec (lower (fst c)) "director") as [->|_]; done.
Qed.

Lemma crew_names_members (l : list pyval) (crew : list (string * string)) :
  Forall2 crew_member l crew →
  ∀ directors writers,
    crew_names l directors writers
    = Ok (directors ++ map VStr (map snd (List.filter is_director crew)),
          writers ++ map VStr (map snd (List.filter is_writer crew))).
Proof.
  induction 1 as [|item [job name] l crew (d & -> & Hjob & Hname) _ IH];
    intros directors writers.
  - simpl. by rewrite !app_nil_r.
  - simpl in Hjob, Hname. cbn [crew_names]. rewrite Hjob, Hname.
    cbn [default from_option id py_lower VStr mbind res_bind bind truthy].
    fold (VStr name).
    cbn [List.filter].
    change ((lower job =? "director")%string && negb (name =? "")%string)
      with (is_director (job, name)).
    change (str_in (lower job) ["writer"; "screenplay"; "story"]
            && negb (name =? "")%string)
      with (is_writer (job, name)).
    destruct (is_director (job, name)) eqn:Hd.
    + assert (is_writer (job, name) = false) as ->.
      { destruct (is_writer (job, name)) eqn:Hw; [|done].
        apply writer_not_director in Hw. congruence. }
      rewrite IH. cbn [map snd]. by rewrite <- !app_assoc.
    + destruct (is_writer (job, name)) eqn:Hw;
        rewrite IH; cbn [map snd]; by rewrite <- ?app_assoc.
Qed.

Context `{Decoders}.

(** X18.  What the caps of the list columns cut.  When the column decodes
    to a list whose items carry names, the cast is the first [limit] names
    joined (without the last [-limit] for a negative limit) and the
    production companies are the first five.  When the crew column decodes
    to a list of dicts with a job and a name, the director is the first
    three names whose job is [director] in some letter case, and the
    writer the first three whose job is [writer], [screenplay] or [story];
    members without a name do not count. *)
Theorem list_columns_capped :
  (∀ (cast_str : string) (limit : Z) (l : list pyval) (names : list string),
     _parse_json_field cast_str = Ok (VList l) →
     Forall2 named l names →
     _extract_cast cast_str limit = Ok (join ", " (list_to limit names)))
  ∧ (∀ (prod_str : string) (l : list pyval) (names : list string),
     _parse_json_field prod_str = Ok (VList l) →
     Forall2 named l names →
     _extract_production_companies prod_str = Ok (join ", " (firstn 5 names)))
  ∧ (∀ (crew_str : string) (l : list pyval) (crew : list (string * string)),
     _parse_json_field crew_str = Ok (VList l) →
     Forall2 crew_member l crew →
     _extract_crew crew_str
     = Ok (join ", " (firstn 3 (map snd (List.filter is_director crew))),
           join ", " (firstn 3 (map snd (List.filter is_writer crew))))).
Proof.
  split; [|split].
  - intros cast_str limit l names Hp Hall. unfold _extract_cast.
    rewrite Hp. simpl. destruct l as [|item l].
    + inversion Hall; subst. unfold list_to.
      destruct (0 <=? limit);
        [destruct (Z.to_nat limit) | destruct (_ - _)%nat]; reflexivity.
    + cbn [negb]. cbv iota. by apply names_of_items_to.
  - intros prod_str l names Hp Hall. unfold _extract_production_companies.
    rewrite Hp. simpl. destruct l as [|item l].
    + by inversion Hall; subst.
    + cbn [negb]. cbv iota. by apply (names_of_items _ _ 5).
  - intros crew_str l crew Hp Hall. unfold _extract_crew.
    rewrite Hp. simpl. destruct l as [|item l].
    + by inversion Hall; subst.
    + cbn [negb orb]. cbv iota.
      rewrite (crew_names_members _ _ Hall). simpl.
      rewrite !firstn_map, !py_join_names. reflexivity.
Qed.

End Columns.

(** Witness for X16: the integer 2^1024. *)
Lemma safe_float_raises_only_on_huge_int_witness :
  ∃ z, SInt (2 ^ 1024) = SInt z
    ∧ ((OverflowError = ValueError ∧ too_long z = true)
       ∨ (OverflowError = OverflowError ∧ too_long z = false
          ∧ float_of_int z = Raise OverflowError)).
Proof.
  apply (safe_float_raises_only_on_huge_int (SInt (2 ^ 1024)) OverflowError).
  vm_compute. reflexivity.
Defined.

(** Witness for X17: the text [1e999]. *)
Lemma safe_int_raises_on_infinity_witness :
  KaggleTMDBParser._safe_int (SStr "1e999") = Raise OverflowError.
Proof.
  apply (safe_int_raises_on_infinity (SStr "1e999") OverflowError).
  right. split; [reflexivity|]. split; [reflexivity|].
  split; [vm_compute; reflexivity|].
  right. exists false. vm_compute. reflexivity.
Defined.

(** Witness for X18: a cast of two names under a limit of one. *)
Lemma list_columns_capped_witness :
  KaggleTMDBParser._extract_cast (H := Ref.decoders)
    "[{'name': 'Al Pacino'}, {'name': 'Robert De Niro'}]" 1
  = Ok "Al Pacino".
Proof.
  destruct (list_columns_capped (H := Ref.decoders)) as (Hcast & _).
  apply (Hcast "[{'name': 'Al Pacino'}, {'name': 'Robert De Niro'}]" 1
           [VDict [(VStr "name", VStr "Al Pacino")];
            VDict [(VStr "name", VStr "Robert De Niro")]]
           ["Al Pacino"; "Robert De Niro"]).
  - vm_compute. reflexivity.
  - repeat constructor.
Defined.

(** ** The convenience function against the supervisor *)

Lemma never_below_minus_infinity (x : float) :
  float_ltb x (S754_infinity true) = false.
Proof. by destruct x as [[]|[]| |[] m e]. Qed.

(** X19.  [parse_tmdb_file] applies neither filter of the supervisor: on a
    stream that converts without raising it yields, in order, the records
    the supervisor reaches the duplicate check with when the adult filter
    is off and the popularity floor is minus infinity. *)
Theorem parse_tmdb_file_is_unfiltered (cfg : Config) (movies : stream pyval)
    (ps : list prepared) :
  skip_adult cfg = false →
  min_popularity cfg = S754_infinity true →
  prepared_all cfg (raw_stream movies) = Some ps →
  Formats.parse_tmdb_file movies = map Ok (valids ps).
Proof.
  intros Hadult Hpop. revert ps.
  induction movies as [|[m|e] movies IH]; intros ps; simpl.
  - by intros [= <-].
  - unfold prepare. rewrite Hadult, Hpop. simpl.
    destruct (py_get m "popularity" (VFloat zero)) as [pop|e]; simpl;
      [|discriminate].
    destruct (try_except (py_float pop) _ _) as [popularity|e]; simpl;
      [|discriminate].
    rewrite never_below_minus_infinity.
    destruct (TMDBParser.movie_to_django_fields m) as [[f|]|e]; simpl;
      [| |discriminate];
      (destruct (prepared_all cfg (raw_stream movies)) as [ps'|];
       [|discriminate]);
      intros [= <-]; simpl; by rewrite (IH ps').
  - discriminate.
Qed.

(** Witness for X19: an object that converts and one without a title. *)
Lemma parse_tmdb_file_is_unfiltered_witness :
  Formats.parse_tmdb_file [Ok seven; Ok (VDict [(VStr "id", VInt 1)])]
  = map Ok (valids [Valid seven_fields; Invalid]).
Proof.
  apply (parse_tmdb_file_is_unfiltered
           {| limit := 10; batch_size := 5; skip_adult := false;
              min_popularity := S754_infinity true |});
    vm_compute; reflexivity.
Defined.

(** ** The list getters of the model *)

Section Getters.
Import Models.

Lemma startswith_empty (s : string) : startswith s "" = true.
Proof. by destruct s. Qed.

Lemma contains_cons (a : ascii) (s : string) :
  contains "," (String a s) = false →
  Ascii.eqb a "," = false ∧ contains "," s = false.
Proof.
  cbn [contains startswith]. rewrite startswith_empty, andb_true_r.
  intros [Ha Hs]%orb_false_iff. by rewrite Ascii.eqb_sym.
Qed.

Lemma split_no_comma (n : string) :
  contains "," n = false → split_on "," n = [n].
Proof.
  induction n as [|a n IH]; [done|].
  intros [Ha Hn]%contains_cons. cbn [split_on]. by rewrite Ha, (IH Hn).
Qed.

Lemma split_app (n rest : string) :
  contains "," n = false →
  split_on "," (n ++ String "," rest) = n :: split_on "," rest.
Proof.
  induction n as [|a n IH]; [done|].
  intros [Ha Hn]%contains_cons.
  change (String a n ++ String "," rest)%string
    with (String a (n ++ String "," rest)).
  cbn [split_on]. by rewrite Ha, (IH Hn).
Qed.

Lemma split_join (x : string) (names : list string) :
  Forall (λ n, contains "," n = false) (x :: names) →
  split_on "," (join ", " (x :: names)) = x :: map (String " ") names.
Proof.
  revert x. induction names as [|y names IH]; intros x Hall.
  - apply split_no_comma. by inversion Hall.
  - inversion Hall as [|? ? Hx Hrest]; subst.
    change (join ", " (x :: y :: names))
      with (x ++ String "," (String " " (join ", " (y :: names))))%string.
    rewrite (split_app _ _ Hx). f_equal.
    cbn [split_on]. change (Ascii.eqb " " ",") with false. cbv iota.
    by rewrite (IH y Hrest).
Qed.

Lemma strip_after_space (n : string) :
  strip n = n → n ≠ "" → strip (String " " n) = n.
Proof.
  unfold strip. intros Hn Hne. cbn [rstrip].
  destruct (rstrip n) as [|c r] eqn:Hr; [by rewrite <- Hn in Hne|].
  cbn [lstrip]. change (is_space " ") with true. by cbv iota.
Qed.

Lemma join_nonempty (x : string) (names : list string) :
  x ≠ "" → join ", " (x :: names) ≠ "".
Proof. destruct x, names; done. Qed.

(** A name the getters give back as it went in has no comma inside, no
    white space at either end, and is not empty. *)
Lemma comma_list_join (names : list string) :
  Forall (λ n, strip n = n ∧ n ≠ "" ∧ contains "," n = false) names →
  comma_list (join ", " names) = names.
Proof.
  unfold comma_list. destruct names as [|x names]; [done|]. intros Hall.
  assert (Forall (λ n, contains "," n = false) (x :: names)) as Hcommas
    by (eapply Forall_impl; [exact Hall|]; by intros ? (_ & _ & ?)).
  inversion Hall as [|? ? (Hx & Hxne & _) Hrest]; subst.
  apply String.eqb_neq in Hxne as Hxne'.
  pose proof (join_nonempty x names Hxne) as ->%String.eqb_neq.
  rewrite (split_join _ _ Hcommas). cbn [map List.filter].
  rewrite Hx, Hxne'. cbn [negb]. f_equal.
  clear Hcommas Hall. induction Hrest as [|y names (Hy & Hyne & _) _ IH];
    [done|].
  cbn [map List.filter]. rewrite (strip_after_space _ Hy Hyne).
  apply String.eqb_neq in Hyne as ->. cbn [negb]. by rewrite IH.
Qed.

(** X20.  Round trip between the parsers and the model: a column the
    parsers wrote as names joined by a comma and a space is read back by
    the list getters as the same names, in order, provided no name
    contains a comma, begins or ends with white space, or is empty. *)
Theorem list_getters_invert_join (m : Fields) (names : list string) :
  Forall (λ n, strip n = n ∧ n ≠ "" ∧ contains "," n = false) names →
  (actors m = join ", " names → get_actors_list m = names)
  ∧ (director m = join ", " names → get_directors_list m = names)
  ∧ (country m = join ", " names → get_countries_list m = names).
Proof.
  intros Hall. unfold get_actors_list, get_directors_list, get_countries_list.
  repeat split; intros ->; by apply comma_list_join.
Qed.

Lemma take_all (n : nat) (s : string) :
  (String.length s ≤ n)%nat → take n s = s.
Proof.
  revert n. induction s as [|c s IH]; intros [|n]; simpl; try done; [lia|].
  intros ?. f_equal. apply IH. lia.
Qed.

(** X21.  From the cast column to the model and back: when the column
    decodes to a list whose items carry the names [names], all of them
    free of commas and of outer white space and not empty, and the first
    ten joined fit in 1000 characters, then [get_actors_list] of the
    emitted record gives the first ten names. *)
Theorem cast_round_trip `{Decoders} (row : gmap string scalar)
    (only_released : bool) (min_votes : Z) (f : Fields)
    (l : list pyval) (names : list string) :
  KaggleTMDBParser._row_to_movie row only_released min_votes = Ok (Some f) →
  KaggleTMDBParser._parse_json_field (KaggleTMDBParser.gets row "cast" "[]")
  = Ok (VList l) →
  Forall2 (λ item n, KaggleTMDBParser.named_item item = Some (VStr n)) l names →
  Forall (λ n, strip n = n ∧ n ≠ "" ∧ contains "," n = false) names →
  len (join ", " (firstn 10 names)) ≤ 1000 →
  get_actors_list f = firstn 10 names.
Proof.
  intros Hm Hcast Hitems Hclean Hlen.
  assert (KaggleTMDBParser._extract_cast
            (KaggleTMDBParser.gets row "cast" "[]") 10
          = Ok (join ", " (firstn 10 names))) as Hextract.
  { unfold KaggleTMDBParser._extract_cast. rewrite Hcast. simpl.
    destruct l as [|item l].
    - inversion Hitems; subst. reflexivity.
    - cbn [negb]. cbv iota. by apply (names_of_items _ _ 10). }
  assert (actors f = join ", " (firstn 10 names)) as Hactors.
  { unfold KaggleTMDBParser._row_to_movie in Hm.
    repeat passed Hm. injection Hm as <-. simpl.
    repeat match goal with
           | Ht : KaggleTMDBParser.text _ _ _ = Ok _ |- _ =>
               apply text_gets in Ht; subst
           end.
    match goal with
    | Ha : KaggleTMDBParser._extract_cast _ _ = Ok ?a |- _ =>
        rewrite Hextract in Ha; injection Ha as <-
    end.
    unfold slice_to. apply take_all. unfold len in Hlen. lia. }
  unfold get_actors_list. rewrite Hactors.
  apply comma_list_join. by apply Forall_take.
Qed.

End Getters.

(** Witness for X20: the cast of [Heat]. *)
Lemma list_getters_invert_join_witness :
  Models.get_actors_list
    {| tmdb_id := 949; title := VStr "Heat"; year := 1995; genres := "";
       overview := VStr ""; poster_path := ""; popularity := zero;
       language := VStr ""; imdb_id := ""; imdb_rating := None;
       imdb_votes := ""; metascore := None; rotten_tomatoes := "";
       director := ""; writer := ""; actors := "Al Pacino, Robert De Niro";
       rated := ""; released := VStr ""; country := ""; awards := "";
       box_office := ""; production := ""; runtime := None |}
  = ["Al Pacino"; "Robert De Niro"].
Proof.
  eapply (list_getters_invert_join _ ["Al Pacino"; "Robert De Niro"]);
    [|reflexivity].
  repeat constructor; by vm_compute.
Defined.

(** Witness for X21: the row [heat_with_cast]. *)
Lemma cast_round_trip_witness :
  Models.get_actors_list
    (match KaggleTMDBParser._row_to_movie (H := Ref.decoders)
             heat_with_cast true 100 with
     | Ok (Some f) => f
     | _ => movie 0
     end)
  = firstn 10 ["Al Pacino"; "Robert De Niro"].
Proof.
  apply (cast_round_trip (H := Ref.decoders) heat_with_cast true 100 _
           [VDict [(VStr "name", VStr "Al Pacino")];
            VDict [(VStr "name", VStr "Robert De Niro")]]).
  - vm_compute. reflexivity.
  - vm_compute. reflexivity.
  - repeat constructor.
  - repeat constructor; by vm_compute.
  - by vm_compute.
Defined.

(** Witness for X15: the row [heat], released and with 150 votes. *)
Lemma row_filters_sound_witness :
  lower (KaggleTMDBParser.gets heat "status" "") = "released"
  ∧ ∃ n, KaggleTMDBParser._safe_int (KaggleTMDBParser.get heat "vote_count" (SInt 0))
         = Ok (Some n) ∧ 100 ≤ n.
Proof.
  assert (KaggleTMDBParser._row_to_movie (H := Ref.decoders) heat true 100
          = Ok (Some heat_fields)) as Hm by (vm_compute; reflexivity).
  destruct (row_filters_sound (H := Ref.decoders) heat true 100 heat_fields Hm)
    as [Hstatus Hvotes].
  split; [by apply Hstatus | apply Hvotes; lia].
Defined.

